(** * GK20A instance memory (nvkm/subdev/instmem/gk20a.c)

    A shallow embedding of the GK20A instance-memory objects: the PRAMIN
    window used by [gk20a_instobj_rd32] / [gk20a_instobj_wr32], the two
    allocation backends (DMA API, IOMMU API) with their constructors and
    destructors, and the subdev constructor and fini.

    The kernel services the file calls (register access, page allocator,
    IOMMU, the address-space heap, the DMA allocator) act on an explicit
    [world]; every call is also appended to a trace, so that the number and
    the order of the calls can be stated. *)

From Stdlib Require Import ZArith List Lia Bool.
From stdpp Require Import base option list gmap gmultiset.

Local Open Scope Z_scope.

(** ** Machine integers *)

(** Truncation to an unsigned integer of [bits] bits. *)
Definition wrap (bits x : Z) : Z := x mod 2 ^ bits.

Definition u32 (x : Z) : Z := wrap 32 x.
Definition u64 (x : Z) : Z := wrap 64 x.

(** [BIT(nr)] is [1UL << nr], defined in C for [nr] below the width of
    [unsigned long]; here it is the mathematical shift.  The one use,
    [BIT(34 - imem->iommu_pgshift)], is on the successful path of the IOMMU
    constructor and in the IOMMU destructor: a theorem whose conclusion
    depends on its value assumes [34 - iommu_pgshift < BITS_PER_LONG]. *)
Definition BIT (nr : Z) : Z := Z.shiftl 1 nr.

(** What the kernel headers fix for a platform.  [PAGE_SHIFT],
    [BITS_PER_LONG] and [page_to_phys] come from the architecture headers,
    which are not part of this driver, so they are parameters. *)
Record platform := Platform {
  PAGE_SHIFT : Z;
  BITS_PER_LONG : Z;
  page_to_phys : Z -> Z
}.

Definition ulong (pf : platform) (x : Z) : Z := wrap (BITS_PER_LONG pf) x.

(** [PAGE_SIZE] is [1UL << PAGE_SHIFT]. *)
Definition PAGE_SIZE (pf : platform) : Z := ulong pf (Z.shiftl 1 (PAGE_SHIFT pf)).

(** The kernel's [roundup(x, y)], [((x + (y - 1)) / y) * y], evaluated in
    [unsigned long] as it is for [y = PAGE_SIZE]. *)
Definition roundup (pf : platform) (x y : Z) : Z :=
  ulong pf (ulong pf (x + (y - 1)) / y * y).

Definition ENOMEM : Z := 12.

(** Return value of a kernel function that follows the "zero or negative
    errno" convention. *)
Inductive kret := KOk | KErr (errno : positive).

Definition kret_int (k : kret) : Z :=
  match k with KOk => 0 | KErr e => Z.neg e end.

(** ** Data *)

(** [struct nvkm_mm_node] (core/mm.h).  The header is not among the sources;
    [offset] and [length] are 32-bit there, which is why the constructor
    widens [r->offset] with a [(u64)] cast before shifting it. *)
Record nvkm_mm_node := MmNode {
  nd_type : Z;
  nd_offset : Z;
  nd_length : Z
}.

(** An entry of [mem->regions]: a node owned by the address-space heap, or
    the node embedded in a DMA object ([&node->r]). *)
Inductive region := RegionHeap (r : Z) | RegionEmbedded.

(** The fields of [struct nvkm_mem] the file touches.  [mem_regions] is
    the list that hangs off an initialised head ([INIT_LIST_HEAD]).  The
    zero-filled head of a fresh object is no list at all ([list_empty()]
    is false for it); it is written [[]] too, but it occurs only in objects
    whose [node->mem] is NULL, and the driver reads [regions] through
    [node->mem] only, see [node_mem]. *)
Record nvkm_mem := Mem {
  mem_offset : Z;
  mem_size : Z;
  mem_memtype : Z;
  mem_page_shift : Z;
  mem_regions : list region
}.

(** [struct gk20a_instobj]: [mem] is the pointer, NULL ([false]) until the
    constructor points it at [_mem]. *)
Record gk20a_instobj := InstObj {
  base_addr : Z;
  base_size : Z;
  mem : bool;
  _mem : nvkm_mem
}.

Record gk20a_instobj_dma := InstObjDma {
  dma_base : gk20a_instobj;
  cpuaddr : Z;
  handle : Z;
  r : nvkm_mm_node
}.

Record gk20a_instobj_iommu := InstObjIommu {
  iommu_base : gk20a_instobj;
  pages : list Z
}.

(** What a [struct nvkm_object *] of this class points to. *)
Inductive object :=
| ObjDma (node : gk20a_instobj_dma)
| ObjIommu (node : gk20a_instobj_iommu).

Definition obj_base (o : object) : gk20a_instobj :=
  match o with
  | ObjDma n => dma_base n
  | ObjIommu n => iommu_base n
  end.

Inductive backend := ContiguousHost | IommuMapped.

Definition obj_backend (o : object) : backend :=
  match o with
  | ObjDma _ => ContiguousHost
  | ObjIommu _ => IommuMapped
  end.

Inductive dma_attr :=
| DMA_ATTR_NON_CONSISTENT
| DMA_ATTR_WEAK_ORDERING
| DMA_ATTR_WRITE_COMBINE
| DMA_ATTR_NO_KERNEL_MAPPING.

(** [struct gk20a_instmem].  Pointers are integers with 0 for NULL;
    [imem->mm] and [imem->mm_mutex] designate the heap of the [world]. *)
Record gk20a_instmem := InstMem {
  imem_addr : Z;
  imem_domain : Z;
  imem_iommu_pgshift : Z;
  imem_attrs : list dma_attr
}.

(** [device->gpu->iommu] as the subdev constructor reads it. *)
Record nvkm_device := Device {
  dev_iommu_domain : Z;
  dev_iommu_pgshift : Z
}.

Record nvkm_instobj_args := Args {
  args_size : Z;
  args_align : Z
}.

(** ** The world of kernel services *)

Inductive message :=
| MsgCannotAllocateDma
| MsgNotAligned (handle align : Z)
| MsgVirtualSpaceFull
| MsgIommuMappingFailure (ret : Z).

Inductive event :=
| EvWr32 (reg data : Z)
| EvRd32 (reg : Z)
| EvAllocPage (p : Z)
| EvFreePage (p : Z)
| EvMmHead (size align : Z) (ret : Z) (r : Z)
| EvMmFree (r : Z) (offset length : Z)
| EvIommuMap (iova paddr : Z) (ret : Z)
| EvIommuUnmap (iova : Z)
| EvDmaAlloc (size cpu dma : Z)
| EvDmaFree (size cpu dma : Z)
| EvError (m : message)
| EvWarn (m : message)
| EvInstobjDestroy.

Record world := World {
  w_regs : gmap Z Z;
  w_pages : gmultiset Z;
  w_iommu : gmap Z Z;
  w_mm : gmap Z nvkm_mm_node;
  w_dma : gmultiset (Z * Z * Z);
  w_trace : list event
}.

(** The resources a constructor acquires and a destructor gives back: pages
    out of the page allocator, IOMMU mappings, reserved ranges of the
    address-space heap, DMA buffers. *)
Definition resources (w : world) :=
  (w_pages w, w_iommu w, w_mm w, w_dma w).

Definition empty_world : world :=
  World ∅ ∅ ∅ ∅ ∅ [].

(** How the collaborators answer during one constructor call. *)
Record ctor_env := CtorEnv {
  env_create : kret;
  env_alloc_page : nat -> Z;
  env_mm_head : kret;
  env_mm_offset : Z;
  env_iommu_map : nat -> kret;
  env_dma_cpuaddr : Z;
  env_dma_handle : Z
}.

(** ** A state monad with faults

    [None] is a fault: a NULL dereference or an access outside an array. *)
Definition M (A : Type) : Type := world -> option (A * world).

Definition pure {A : Type} (a : A) : M A := fun w => Some (a, w).

Definition bind {A B : Type} (m : M A) (f : A -> M B) : M B :=
  fun w => match m w with
           | Some (a, w') => f a w'
           | None => None
           end.

Definition fault {A : Type} : M A := fun _ => None.

Notation "'let*' x := c1 'in' c2" := (bind c1 (fun x => c2))
  (at level 10, x pattern, c1 at level 100, c2 at level 200).

Definition emit (e : event) : M unit :=
  fun w => Some (tt, World (w_regs w) (w_pages w) (w_iommu w) (w_mm w) (w_dma w)
                           (w_trace w ++ [e])).

Definition nvkm_error (m : message) : M unit := emit (EvError m).
Definition nvkm_warn (m : message) : M unit := emit (EvWarn m).

(** Modelled from the spec: the raw indirect register interface
    ([reg_write32(offset, value)], [reg_read32(offset) -> value]) is
    [nvkm_wr32] / [nvkm_rd32] of the device core, which is not among the
    sources.  It is a store addressed by the 32-bit register offset. *)
Definition nvkm_wr32 (reg data : Z) : M unit :=
  fun w => Some (tt, World (<[u32 reg := u32 data]> (w_regs w)) (w_pages w) (w_iommu w)
                           (w_mm w) (w_dma w)
                           (w_trace w ++ [EvWr32 (u32 reg) (u32 data)])).

Definition nvkm_rd32 (reg : Z) : M Z :=
  fun w => Some (default 0 (w_regs w !! u32 reg),
                 World (w_regs w) (w_pages w) (w_iommu w) (w_mm w) (w_dma w)
                       (w_trace w ++ [EvRd32 (u32 reg)])).

(** Modelled from the spec: the page allocator ([alloc_page() -> Page |
    Error], [free_page(Page)]).  [p] is what this call returns, 0 for NULL. *)
Definition alloc_page (p : Z) : M Z :=
  fun w => Some (p, World (w_regs w)
                          (if p =? 0 then w_pages w else w_pages w ⊎ {[+ p +]})
                          (w_iommu w) (w_mm w) (w_dma w)
                          (w_trace w ++ [EvAllocPage p])).

Definition __free_page (p : Z) : M unit :=
  fun w => Some (tt, World (w_regs w) (w_pages w ∖ {[+ p +]}) (w_iommu w) (w_mm w)
                           (w_dma w) (w_trace w ++ [EvFreePage p])).

(** Modelled from the spec: the IOMMU control interface ([map(domain,
    gpu_addr, phys_addr, size, perms) -> Result], [unmap(domain, gpu_addr,
    size)]), one entry per mapped address.  [k] is what this call returns. *)
Definition iommu_map (k : kret) (iova paddr : Z) : M Z :=
  fun w => Some (kret_int k,
                 World (w_regs w) (w_pages w)
                       (match k with KOk => <[iova := paddr]> (w_iommu w) | KErr _ => w_iommu w end)
                       (w_mm w) (w_dma w)
                       (w_trace w ++ [EvIommuMap iova paddr (kret_int k)])).

Definition iommu_unmap (iova : Z) : M unit :=
  fun w => Some (tt, World (w_regs w) (w_pages w) (delete iova (w_iommu w)) (w_mm w)
                           (w_dma w) (w_trace w ++ [EvIommuUnmap iova])).

(** Modelled from the spec: the Region Heap ([reserve(length, align) ->
    Range | OutOfSpace], [release(range)]) is [nvkm_mm_head] /
    [nvkm_mm_free] of core/mm.c, which is not among the sources.  Where a
    range is placed is the heap's business: [k] and [offset] are what this
    call answers, and the node it hands out is a new one (and not NULL).
    The driver takes [imem->mm_mutex] around each of the two calls; calls
    are sequential here, so the mutex does not appear.  Releasing a range
    hands the node to the heap, which reads the range out of it: the call
    records the offset and the length the node holds at that moment. *)
Definition nvkm_mm_head (k : kret) (offset size align : Z) : M (Z * Z) :=
  fun w =>
    let r := fresh ({[0]} ∪ dom (w_mm w)) in
    match k with
    | KOk => Some ((0, r),
                   World (w_regs w) (w_pages w) (w_iommu w)
                         (<[r := MmNode 1 offset size]> (w_mm w)) (w_dma w)
                         (w_trace w ++ [EvMmHead size align 0 r]))
    | KErr e => Some ((Z.neg e, 0),
                      World (w_regs w) (w_pages w) (w_iommu w) (w_mm w) (w_dma w)
                            (w_trace w ++ [EvMmHead size align (Z.neg e) 0]))
    end.

Definition nvkm_mm_free (r : Z) : M unit :=
  fun w => match w_mm w !! r with
           | Some nd => Some (tt, World (w_regs w) (w_pages w) (w_iommu w)
                                        (delete r (w_mm w)) (w_dma w)
                                        (w_trace w ++ [EvMmFree r (nd_offset nd)
                                                                (nd_length nd)]))
           | None => None
           end.

(** [r->field] for a node of the heap. *)
Definition mm_node_get (r : Z) : M nvkm_mm_node :=
  fun w => match w_mm w !! r with
           | Some nd => Some (nd, w)
           | None => None
           end.

Definition mm_node_set_offset (r : Z) (offset : Z) : M unit :=
  fun w => match w_mm w !! r with
           | Some nd => Some (tt, World (w_regs w) (w_pages w) (w_iommu w)
                                        (<[r := MmNode (nd_type nd) offset (nd_length nd)]> (w_mm w))
                                        (w_dma w) (w_trace w))
           | None => None
           end.

(** Modelled from the spec: the platform memory allocator
    ([alloc_coherent(size, align) -> (handle, bus_address) | Error],
    [free_coherent(handle)]) is [dma_alloc_attrs] / [dma_free_attrs].
    [cpu] and [dma] are what this call returns; [cpu] is 0 on failure. *)
Definition dma_alloc_attrs (cpu dma size : Z) : M (Z * Z) :=
  fun w => Some ((cpu, dma),
                 World (w_regs w) (w_pages w) (w_iommu w) (w_mm w)
                       (if cpu =? 0 then w_dma w else w_dma w ⊎ {[+ (cpu, dma, size) +]})
                       (w_trace w ++ [EvDmaAlloc size cpu dma])).

Definition dma_free_attrs (size cpu dma : Z) : M unit :=
  fun w => Some (tt, World (w_regs w) (w_pages w) (w_iommu w) (w_mm w)
                           (w_dma w ∖ {[+ (cpu, dma, size) +]})
                           (w_trace w ++ [EvDmaFree size cpu dma])).

Definition nvkm_instobj_destroy : M unit := emit EvInstobjDestroy.

(** [node->mem], faulting on NULL. *)
Definition node_mem (node : gk20a_instobj) : M nvkm_mem :=
  if mem node then pure (_mem node) else fault.

(** ** PRAMIN access *)

(** [(node->mem->offset + offset)]: the GPU address of the access. *)
Definition gpu_offset (m : nvkm_mem) (offset : Z) : Z := u64 (mem_offset m + offset).

Definition window_base (gpu : Z) : Z := Z.land gpu 0xffffff00000.
Definition window_addr (gpu : Z) : Z := Z.land gpu 0x000000fffff.

(** [spin_lock_irqsave] / [spin_unlock_irqrestore] bracket the body of both
    accessors; calls are sequential here, so the lock does not appear. *)
Definition gk20a_instobj_rd32 (imem : gk20a_instmem) (o : object) (offset : Z)
  : M (Z * gk20a_instmem) :=
  let* m := node_mem (obj_base o) in
  let base := window_base (gpu_offset m offset) in
  let addr := window_addr (gpu_offset m offset) in
  let* imem' :=
    (if negb (imem_addr imem =? base) then
       let* _ := nvkm_wr32 0x001700 (Z.shiftr base 16) in
       pure (InstMem base (imem_domain imem) (imem_iommu_pgshift imem) (imem_attrs imem))
     else pure imem) in
  let* data := nvkm_rd32 (0x700000 + addr) in
  pure (data, imem').

Definition gk20a_instobj_wr32 (imem : gk20a_instmem) (o : object) (offset data : Z)
  : M gk20a_instmem :=
  let* m := node_mem (obj_base o) in
  let base := window_base (gpu_offset m offset) in
  let addr := window_addr (gpu_offset m offset) in
  let* imem' :=
    (if negb (imem_addr imem =? base) then
       let* _ := nvkm_wr32 0x001700 (Z.shiftr base 16) in
       pure (InstMem base (imem_domain imem) (imem_iommu_pgshift imem) (imem_attrs imem))
     else pure imem) in
  let* _ := nvkm_wr32 (0x700000 + addr) data in
  pure imem'.

(** ** Destructors *)

Definition gk20a_instobj_dtor_dma (pf : platform) (imem : gk20a_instmem)
    (node : gk20a_instobj_dma) : M unit :=
  if cpuaddr node =? 0 then pure tt
  else
    let* m := node_mem (dma_base node) in
    dma_free_attrs (ulong pf (u64 (Z.shiftl (mem_size m) (PAGE_SHIFT pf))))
                   (cpuaddr node) (handle node).

(** The loop of [gk20a_instobj_dtor_iommu]: [n] iterations are left,
    [i] is the loop variable.  [(r->offset + i) << imem->iommu_pgshift] is
    evaluated in 32 bits, the type of [r->offset]. *)
Fixpoint dtor_iommu_loop (imem : gk20a_instmem) (r_offset : Z) (pgs : list Z)
    (n i : nat) : M unit :=
  match n with
  | O => pure tt
  | S n' =>
      let* _ := iommu_unmap
                  (u32 (Z.shiftl (u32 (r_offset + Z.of_nat i)) (imem_iommu_pgshift imem))) in
      match pgs !! i with
      | None => fault
      | Some p =>
          let* _ := __free_page p in
          dtor_iommu_loop imem r_offset pgs n' (S i)
      end
  end.

Definition gk20a_instobj_dtor_iommu (imem : gk20a_instmem)
    (node : gk20a_instobj_iommu) : M unit :=
  let* m := node_mem (iommu_base node) in
  match mem_regions m with
  | [] => pure tt
  | RegionEmbedded :: _ => fault
  | RegionHeap r :: _ =>
      let* nd := mm_node_get r in
      (* clear bit 34 to unmap pages *)
      let offset := u32 (Z.land (nd_offset nd) (Z.lnot (BIT (34 - imem_iommu_pgshift imem)))) in
      let* _ := mm_node_set_offset r offset in
      (* Unmap pages from GPU address space and free them *)
      let* _ := dtor_iommu_loop imem offset (pages node) (Z.to_nat (mem_size m)) 0 in
      (* Release area from GPU address space *)
      nvkm_mm_free r
  end.

(** [gk20a_instobj_dtor].  The C code casts the object to the structure of
    the backend [imem->domain] selects; a cast to the other structure is a
    fault here. *)
Definition gk20a_instobj_dtor (pf : platform) (imem : gk20a_instmem) (o : object)
  : M unit :=
  let* _ :=
    (if negb (imem_domain imem =? 0) then
       match o with
       | ObjIommu node => gk20a_instobj_dtor_iommu imem node
       | ObjDma _ => fault
       end
     else
       match o with
       | ObjDma node => gk20a_instobj_dtor_dma pf imem node
       | ObjIommu _ => fault
       end) in
  nvkm_instobj_destroy.

(** ** Constructors *)

(** What [nvkm_instobj_create_] leaves behind: a zero-filled object. *)
Definition zero_mem : nvkm_mem := Mem 0 0 0 0 [].
Definition zero_instobj : gk20a_instobj := InstObj 0 0 false zero_mem.

Definition set__mem (node : gk20a_instobj) (m : nvkm_mem) : gk20a_instobj :=
  InstObj (base_addr node) (base_size node) (mem node) m.

Definition gk20a_instobj_ctor_dma (pf : platform) (env : ctor_env)
    (imem : gk20a_instmem) (npages align : Z) : M (Z * option object) :=
  match env_create env with
  | KErr e => pure (Z.neg e, None)
  | KOk =>
      let size := u32 (Z.shiftl npages (PAGE_SHIFT pf)) in
      let* (cpu, dma) := dma_alloc_attrs (env_dma_cpuaddr env) (env_dma_handle env) size in
      if cpu =? 0 then
        let* _ := nvkm_error MsgCannotAllocateDma in
        pure (- ENOMEM, Some (ObjDma (InstObjDma zero_instobj cpu dma (MmNode 0 0 0))))
      else
        (* alignment check *)
        let* _ := (if negb (Z.land dma (u32 (align - 1)) =? 0)
                   then nvkm_warn (MsgNotAligned dma align) else pure tt) in
        (* present memory for being mapped using small pages *)
        let r := MmNode 12 (u32 (Z.shiftr dma 12)) (u32 (Z.shiftr size 12)) in
        let m := Mem dma 0 0 0 [RegionEmbedded] in
        pure (0, Some (ObjDma (InstObjDma (set__mem zero_instobj m) cpu dma r)))
  end.

(** The allocation loop: [n] iterations are left, [i] is the loop
    variable; the flag is false when the loop left through [goto
    free_pages]. *)
Fixpoint ctor_iommu_alloc (env : ctor_env) (pgs : list Z) (n i : nat)
  : M (bool * list Z) :=
  match n with
  | O => pure (true, pgs)
  | S n' =>
      let* p := alloc_page (env_alloc_page env i) in
      if p =? 0 then pure (false, pgs)
      else ctor_iommu_alloc env (<[i := p]> pgs) n' (S i)
  end.

(** [while (i-- > 0) { offset -= PAGE_SIZE; iommu_unmap(...); }] with the
    32-bit [offset]. *)
Fixpoint ctor_iommu_unwind (pf : platform) (offset : Z) (i : nat) : M unit :=
  match i with
  | O => pure tt
  | S i' =>
      let offset' := u32 (offset - PAGE_SIZE pf) in
      let* _ := iommu_unmap offset' in
      ctor_iommu_unwind pf offset' i'
  end.

(** The mapping loop; the result is [ret], negative when the loop left
    through [goto release_area]. *)
Fixpoint ctor_iommu_map (pf : platform) (env : ctor_env) (imem : gk20a_instmem)
    (r_offset : Z) (pgs : list Z) (n i : nat) : M Z :=
  match n with
  | O => pure 0
  | S n' =>
      match pgs !! i with
      | None => fault
      | Some p =>
          let offset := u32 (Z.shiftl (u32 (r_offset + Z.of_nat i)) (imem_iommu_pgshift imem)) in
          let* ret := iommu_map (env_iommu_map env i) offset (page_to_phys pf p) in
          if ret <? 0 then
            let* _ := nvkm_error (MsgIommuMappingFailure ret) in
            let* _ := ctor_iommu_unwind pf offset i in
            pure ret
          else ctor_iommu_map pf env imem r_offset pgs n' (S i)
      end
  end.

(** The [free_pages:] loop: it stops at the first NULL entry. *)
Fixpoint ctor_iommu_free_pages (pgs : list Z) : M unit :=
  match pgs with
  | [] => pure tt
  | p :: rest =>
      if p =? 0 then pure tt
      else let* _ := __free_page p in ctor_iommu_free_pages rest
  end.

Definition gk20a_instobj_ctor_iommu (pf : platform) (env : ctor_env)
    (imem : gk20a_instmem) (npages align : Z) : M (Z * option object) :=
  match env_create env with
  | KErr e => pure (Z.neg e, None)
  | KOk =>
      (* Allocate backing memory *)
      let* (ok, pgs) :=
        ctor_iommu_alloc env (replicate (Z.to_nat npages) 0) (Z.to_nat npages) 0 in
      let node := InstObjIommu zero_instobj pgs in
      if negb ok then
        let* _ := ctor_iommu_free_pages pgs in
        pure (- ENOMEM, Some (ObjIommu node))
      else
        (* Reserve area from GPU address space *)
        let* (ret, r) :=
          nvkm_mm_head (env_mm_head env) (env_mm_offset env) npages
                       (u32 (Z.shiftr align (imem_iommu_pgshift imem))) in
        if negb (ret =? 0) then
          let* _ := nvkm_error MsgVirtualSpaceFull in
          let* _ := ctor_iommu_free_pages pgs in
          pure (ret, Some (ObjIommu node))
        else
          (* Map into GPU address space; r->offset is not written meanwhile *)
          let* nd := mm_node_get r in
          let* ret := ctor_iommu_map pf env imem (nd_offset nd) pgs (Z.to_nat npages) 0 in
          if ret <? 0 then
            let* _ := nvkm_mm_free r in
            let* _ := ctor_iommu_free_pages pgs in
            pure (ret, Some (ObjIommu node))
          else
            (* Bit 34 tells that an address is to be resolved through the IOMMU *)
            let offset := u32 (Z.lor (nd_offset nd) (BIT (34 - imem_iommu_pgshift imem))) in
            let* _ := mm_node_set_offset r offset in
            let m := Mem (u64 (Z.shiftl offset (imem_iommu_pgshift imem))) 0 0 0 [RegionHeap r] in
            pure (0, Some (ObjIommu (InstObjIommu (set__mem zero_instobj m) pgs)))
  end.

(** The tail of [gk20a_instobj_ctor] after a successful backend
    constructor: [node->mem = &node->_mem] and the small-page view. *)
Definition ctor_finish (size : Z) (node : gk20a_instobj) : gk20a_instobj :=
  let m := _mem node in
  InstObj (mem_offset m) size true
          (Mem (mem_offset m) (Z.shiftr size 12) 0 12 (mem_regions m)).

Definition obj_map_base (f : gk20a_instobj -> gk20a_instobj) (o : object) : object :=
  match o with
  | ObjDma n => ObjDma (InstObjDma (f (dma_base n)) (cpuaddr n) (handle n) (r n))
  | ObjIommu n => ObjIommu (InstObjIommu (f (iommu_base n)) (pages n))
  end.

Definition gk20a_instobj_ctor (pf : platform) (env : ctor_env) (imem : gk20a_instmem)
    (args : nvkm_instobj_args) : M (Z * option object) :=
  (* Round size and align to page bounds *)
  let size := u32 (Z.max (roundup pf (args_size args) (PAGE_SIZE pf)) (PAGE_SIZE pf)) in
  let align := u32 (Z.max (roundup pf (args_align args) (PAGE_SIZE pf)) (PAGE_SIZE pf)) in
  let* (ret, node) :=
    (if negb (imem_domain imem =? 0) then
       gk20a_instobj_ctor_iommu pf env imem (u32 (Z.shiftr size (PAGE_SHIFT pf))) align
     else
       gk20a_instobj_ctor_dma pf env imem (u32 (Z.shiftr size (PAGE_SHIFT pf))) align) in
  if negb (ret =? 0) then pure (ret, node)
  else pure (0, option_map (obj_map_base (ctor_finish size)) node).

(** ** The subdev *)

Definition gk20a_instmem_fini (imem : gk20a_instmem) : gk20a_instmem :=
  InstMem (u64 (Z.lnot 0)) (imem_domain imem) (imem_iommu_pgshift imem) (imem_attrs imem).

(** [gk20a_instmem_ctor]: [create] is what [nvkm_instmem_create] returns;
    the object it leaves is zero-filled. *)
Definition gk20a_instmem_ctor (create : kret) (device : nvkm_device)
  : Z * option gk20a_instmem :=
  match create with
  | KErr e => (Z.neg e, None)
  | KOk =>
      if negb (dev_iommu_domain device =? 0) then
        (0, Some (InstMem 0 (dev_iommu_domain device) (dev_iommu_pgshift device) []))
      else
        (0, Some (InstMem 0 0 0
                    [DMA_ATTR_NON_CONSISTENT; DMA_ATTR_WEAK_ORDERING;
                     DMA_ATTR_WRITE_COMBINE; DMA_ATTR_NO_KERNEL_MAPPING]))
  end.

(** ** Reading traces *)

Definition count_events (f : event -> bool) (tr : list event) : nat :=
  length (List.filter f tr).

(** A repoint is a write to the window register 0x001700. *)
Definition is_repoint (e : event) : bool :=
  match e with EvWr32 reg _ => reg =? 0x001700 | _ => false end.

Definition is_free_page (e : event) : bool :=
  match e with EvFreePage _ => true | _ => false end.

Definition is_unmap (e : event) : bool :=
  match e with EvIommuUnmap _ => true | _ => false end.

(** The pages [alloc_page] returned and the pages given to [__free_page],
    in call order. *)
Definition allocated_pages (tr : list event) : list Z :=
  omap (fun e => match e with
                 | EvAllocPage p => if p =? 0 then None else Some p
                 | _ => None
                 end) tr.

Definition freed_pages (tr : list event) : list Z :=
  omap (fun e => match e with EvFreePage p => Some p | _ => None end) tr.

(** The addresses of the successful [iommu_map] calls, in call order. *)
Definition map_addrs (tr : list event) : list Z :=
  omap (fun e => match e with
                 | EvIommuMap iova _ ret => if ret <? 0 then None else Some iova
                 | _ => None
                 end) tr.

(** The addresses of the [iommu_unmap] calls, in call order. *)
Definition unmap_addrs (tr : list event) : list Z :=
  omap (fun e => match e with EvIommuUnmap iova => Some iova | _ => None end) tr.

(** The nodes [nvkm_mm_head] handed out and the nodes given back to
    [nvkm_mm_free]. *)
Definition reserved_nodes (tr : list event) : list Z :=
  omap (fun e => match e with
                 | EvMmHead _ _ ret r => if ret =? 0 then Some r else None
                 | _ => None
                 end) tr.

Definition released_nodes (tr : list event) : list Z :=
  omap (fun e => match e with EvMmFree r _ _ => Some r | _ => None end) tr.

(** ** The quantities of a constructor call *)

Definition platform_ok (pf : platform) : Prop :=
  0 <= PAGE_SHIFT pf < BITS_PER_LONG pf /\
  (BITS_PER_LONG pf = 32 \/ BITS_PER_LONG pf = 64).

(** [size] and [npages] as [gk20a_instobj_ctor] computes them; [npages] is
    also the loop bound of the IOMMU backend. *)
Definition ctor_size (pf : platform) (args : nvkm_instobj_args) : Z :=
  u32 (Z.max (roundup pf (args_size args) (PAGE_SIZE pf)) (PAGE_SIZE pf)).

(** [align] as [gk20a_instobj_ctor] computes it. *)
Definition ctor_align (pf : platform) (args : nvkm_instobj_args) : Z :=
  u32 (Z.max (roundup pf (args_align args) (PAGE_SIZE pf)) (PAGE_SIZE pf)).

Definition ctor_npages_z (pf : platform) (args : nvkm_instobj_args) : Z :=
  u32 (Z.shiftr (ctor_size pf args) (PAGE_SHIFT pf)).

Definition ctor_npages (pf : platform) (args : nvkm_instobj_args) : nat :=
  Z.to_nat (ctor_npages_z pf args).

(** The alignment [gk20a_instobj_ctor_iommu] passes to [nvkm_mm_head]. *)
Definition heap_align (pf : platform) (imem : gk20a_instmem) (args : nvkm_instobj_args)
  : Z :=
  u32 (Z.shiftr (ctor_align pf args) (imem_iommu_pgshift imem)).

(** The size [gk20a_instobj_ctor_dma] asks the DMA allocator for. *)
Definition dma_bytes (pf : platform) (args : nvkm_instobj_args) : Z :=
  u32 (Z.shiftl (ctor_npages_z pf args) (PAGE_SHIFT pf)).

(** The bus address misses the requested alignment. *)
Definition misaligned (pf : platform) (env : ctor_env) (args : nvkm_instobj_args) : bool :=
  negb (Z.land (env_dma_handle env) (u32 (ctor_align pf args - 1)) =? 0).

(** [(r->offset + i) << imem->iommu_pgshift] in 32 bits: the expression
    both loops over the pages of an IOMMU object pass to the IOMMU.  A
    shift of a 32-bit value is defined in C for [iommu_pgshift] below 32;
    here it is the mathematical shift followed by the truncation, and a
    theorem whose conclusion depends on the value of an address assumes
    [iommu_pgshift < 32]. *)
Definition iova (imem : gk20a_instmem) (r_offset : Z) (i : nat) : Z :=
  u32 (Z.shiftl (u32 (r_offset + Z.of_nat i)) (imem_iommu_pgshift imem)).

(** [r->offset] once the constructor has set bit 34 of the address. *)
Definition tagged_offset (imem : gk20a_instmem) (r_offset : Z) : Z :=
  u32 (Z.lor r_offset (BIT (34 - imem_iommu_pgshift imem))).


(** The node [nvkm_mm_head] hands out in world [w]. *)
Definition new_node (w : world) : Z := fresh ({[0]} ∪ dom (w_mm w)).

(** The pages [alloc_page] hands out for loop indices [i .. i+n-1]. *)
Definition alloc_list (env : ctor_env) (i n : nat) : list Z :=
  env_alloc_page env <$> seq i n.

Definition page_at (pgs : list Z) (j : nat) : Z := default 0 (pgs !! j).

(** The object a successful IOMMU constructor returns. *)
Definition iommu_object (pf : platform) (env : ctor_env) (imem : gk20a_instmem)
    (args : nvkm_instobj_args) (r : Z) : object :=
  let offset :=
    u64 (Z.shiftl (tagged_offset imem (env_mm_offset env)) (imem_iommu_pgshift imem)) in
  ObjIommu (InstObjIommu
              (InstObj offset (ctor_size pf args) true
                       (Mem offset (Z.shiftr (ctor_size pf args) 12) 0 12 [RegionHeap r]))
              (alloc_list env 0 (ctor_npages pf args))).

(** The object a successful DMA constructor returns. *)
Definition dma_object (pf : platform) (env : ctor_env) (args : nvkm_instobj_args) : object :=
  let dma := env_dma_handle env in
  ObjDma (InstObjDma
            (InstObj dma (ctor_size pf args) true
                     (Mem dma (Z.shiftr (ctor_size pf args) 12) 0 12 [RegionEmbedded]))
            (env_dma_cpuaddr env) dma
            (MmNode 12 (u32 (Z.shiftr dma 12)) (u32 (Z.shiftr (dma_bytes pf args) 12)))).

(** ** Sub-steps of a constructor call that fail *)

Definition alloc_fails (env : ctor_env) (n : nat) : Prop :=
  exists i : nat, (i < n)%nat /\ env_alloc_page env i = 0.

Definition map_fails (env : ctor_env) (n : nat) : Prop :=
  exists i : nat, (i < n)%nat /\ env_iommu_map env i <> KOk.

Definition iommu_substep_fails (env : ctor_env) (n : nat) : Prop :=
  alloc_fails env n \/ env_mm_head env <> KOk \/ map_fails env n.

(** A sub-step of [gk20a_instobj_ctor] fails: the object itself cannot be
    created, the DMA allocator fails, or a page allocation, the range
    reservation or an IOMMU mapping does. *)
Definition substep_fails (pf : platform) (env : ctor_env) (imem : gk20a_instmem)
    (args : nvkm_instobj_args) : Prop :=
  env_create env <> KOk \/
  (imem_domain imem = 0 /\ env_dma_cpuaddr env = 0) \/
  (imem_domain imem <> 0 /\ iommu_substep_fails env (ctor_npages pf args)).

(** In a constructor call of the IOMMU backend everything succeeds up to
    the [iommu_map] call for page index [k], which fails with [-e]. *)
Definition map_fails_at (pf : platform) (env : ctor_env) (args : nvkm_instobj_args)
    (k : nat) (e : positive) : Prop :=
  env_create env = KOk /\
  (forall j : nat, (j < ctor_npages pf args)%nat -> env_alloc_page env j <> 0) /\
  env_mm_head env = KOk /\
  (k < ctor_npages pf args)%nat /\
  (forall j : nat, (j < k)%nat -> env_iommu_map env j = KOk) /\
  env_iommu_map env k = KErr e.

(** In a constructor call of the IOMMU backend every sub-step succeeds. *)
Definition all_succeed (pf : platform) (env : ctor_env) (args : nvkm_instobj_args) : Prop :=
  env_create env = KOk /\
  (forall j : nat, (j < ctor_npages pf args)%nat -> env_alloc_page env j <> 0) /\
  env_mm_head env = KOk /\
  (forall j : nat, (j < ctor_npages pf args)%nat -> env_iommu_map env j = KOk).

(** The range the heap answers with maps nothing yet. *)
Definition range_unmapped (imem : gk20a_instmem) (env : ctor_env) (n : nat) (w : world)
  : Prop :=
  forall i : nat, (i < n)%nat -> w_iommu w !! iova imem (env_mm_offset env) i = None.

(** An object a successful [gk20a_instobj_ctor] returned. *)
Definition created (pf : platform) (o : object) : Prop :=
  exists env imem args w w',
    gk20a_instobj_ctor pf env imem args w = Some ((0, Some o), w').

(** ** Sequences of accesses *)

Inductive access :=
| Read32 (o : object) (offset : Z)
| Write32 (o : object) (offset data : Z).

Definition access_object (a : access) : object :=
  match a with Read32 o _ | Write32 o _ _ => o end.

Definition access_offset (a : access) : Z :=
  match a with Read32 _ offset | Write32 _ offset _ => offset end.

(** The GPU address an access goes to. *)
Definition access_gpu (a : access) : Z :=
  gpu_offset (_mem (obj_base (access_object a))) (access_offset a).

Definition do_access (imem : gk20a_instmem) (a : access) : M gk20a_instmem :=
  match a with
  | Read32 o offset =>
      let* x := gk20a_instobj_rd32 imem o offset in pure (snd x)
  | Write32 o offset data => gk20a_instobj_wr32 imem o offset data
  end.

Fixpoint run_accesses (imem : gk20a_instmem) (l : list access) : M gk20a_instmem :=
  match l with
  | [] => pure imem
  | a :: rest => let* imem' := do_access imem a in run_accesses imem' rest
  end.

(** One step of the subdev state: an access or a fini.  The constructor and
    the destructor of an object take [imem] by value and return none. *)
Inductive imem_step : gk20a_instmem -> gk20a_instmem -> Prop :=
| step_rd32 imem o offset w data imem' w' :
    gk20a_instobj_rd32 imem o offset w = Some ((data, imem'), w') ->
    imem_step imem imem'
| step_wr32 imem o offset data w imem' w' :
    gk20a_instobj_wr32 imem o offset data w = Some (imem', w') ->
    imem_step imem imem'
| step_fini imem :
    imem_step imem (gk20a_instmem_fini imem).

(** The cache holds the value [gk20a_instmem_fini] stores. *)
Definition invalidated (imem : gk20a_instmem) : Prop :=
  imem_addr imem = u64 (Z.lnot 0).

(** ** The window as the specification words it *)

Definition window_size : Z := 0x100000.

(** [gpu_offset & ~(window_size-1)] on 64-bit offsets. *)
Definition spec_window_base (gpu : Z) : Z :=
  Z.land gpu (u64 (Z.lnot (window_size - 1))).

(** [gpu_offset & (window_size-1)]. *)
Definition spec_in_window (gpu : Z) : Z := Z.land gpu (window_size - 1).

(** The page an offset lies in. *)
Definition spec_page (pf : platform) (gpu : Z) : Z :=
  Z.land gpu (u64 (Z.lnot (PAGE_SIZE pf - 1))).

(** The number of places where two consecutive offsets lie in different
    units, [unit_of] giving the unit of an offset. *)
Fixpoint crossings (unit_of : Z -> Z) (l : list Z) : nat :=
  match l with
  | a :: (b :: _) as rest =>
      if Z.eqb (unit_of a) (unit_of b) then crossings unit_of rest
      else S (crossings unit_of rest)
  | _ => 0%nat
  end.

(** The formula for the number of repoints from an invalidated cache: one
    for the first access, one more for each crossing. *)
Definition spec_repoints (unit_of : Z -> Z) (l : list Z) : nat :=
  match l with
  | [] => 0%nat
  | _ => S (crossings unit_of l)
  end.

(** ** The effect of the accessors and of the loops, in closed form *)

(** The register traffic of one access to GPU address [gpu] when the cache
    holds [cached]: the repoint if there is one, then the data access. *)
Definition access_events (cached gpu : Z) (data : event) : list event :=
  (if cached =? window_base gpu then []
   else [EvWr32 0x001700 (Z.shiftr (window_base gpu) 16)]) ++ [data].

(** What one access leaves in the register store and in [imem]. *)
Definition repoint_regs (cached gpu : Z) (regs : gmap Z Z) : gmap Z Z :=
  if cached =? window_base gpu then regs
  else <[0x001700 := Z.shiftr (window_base gpu) 16]> regs.

Definition repoint_imem (imem : gk20a_instmem) (gpu : Z) : gk20a_instmem :=
  if imem_addr imem =? window_base gpu then imem
  else InstMem (window_base gpu) (imem_domain imem) (imem_iommu_pgshift imem)
               (imem_attrs imem).

(** The repoints of a sequence of accesses, the cache holding [cached]. *)
Fixpoint repoints_from (cached : Z) (gs : list Z) : nat :=
  match gs with
  | [] => 0%nat
  | g :: rest =>
      if cached =? window_base g then repoints_from (window_base g) rest
      else S (repoints_from (window_base g) rest)
  end.

(** The [iommu_map] call for page index [j], returning [ret]. *)
Definition map_event (pf : platform) (imem : gk20a_instmem) (r_offset : Z)
    (pgs : list Z) (ret : Z) (j : nat) : event :=
  EvIommuMap (iova imem r_offset j) (page_to_phys pf (page_at pgs j)) ret.

Definition iommu_insert (pf : platform) (imem : gk20a_instmem) (r_offset : Z)
    (pgs : list Z) (m : gmap Z Z) (j : nat) : gmap Z Z :=
  <[iova imem r_offset j := page_to_phys pf (page_at pgs j)]> m.

Definition iommu_delete (m : gmap Z Z) (a : Z) : gmap Z Z := delete a m.

(** The addresses the unwinding loop of the constructor unmaps, starting
    below [offset]. *)
Fixpoint unwind_addrs (pf : platform) (offset : Z) (i : nat) : list Z :=
  match i with
  | O => []
  | S i' => u32 (offset - PAGE_SIZE pf) :: unwind_addrs pf (u32 (offset - PAGE_SIZE pf)) i'
  end.


(** ** Sample inputs *)

(** A Tegra K1: 32-bit ARM, 4 KiB pages. *)
Definition tegra_k1 : platform := Platform 12 32 (fun p => p).

(** A 64-bit ARM with 4 KiB pages, where bus addresses have 64 bits. *)
Definition arm64_4k : platform := Platform 12 64 (fun p => p).

(** A 64-bit ARM with 64 KiB pages. *)
Definition arm64_64k : platform := Platform 16 64 (fun p => p).

Definition device_iommu : nvkm_device := Device 1 12.
Definition device_dma : nvkm_device := Device 0 0.

Definition imem_iommu : gk20a_instmem := InstMem 0 1 12 [].


Definition imem_dma : gk20a_instmem :=
  InstMem 0 0 0 [DMA_ATTR_NON_CONSISTENT; DMA_ATTR_WEAK_ORDERING;
                 DMA_ATTR_WRITE_COMBINE; DMA_ATTR_NO_KERNEL_MAPPING].

Definition imem_invalidated : gk20a_instmem := gk20a_instmem_fini imem_dma.

(** Every collaborator succeeds; page [i] is at 0x1000 * (i + 1), the heap
    answers with offset 0x100, the DMA buffer is at bus address 0x80001000. *)
Definition env_ok : ctor_env :=
  CtorEnv KOk (fun i => 0x1000 * (Z.of_nat i + 1)) KOk 0x100 (fun _ => KOk)
          0xc0000000 0x80001000.

(** As [env_ok], but the [iommu_map] call for page index [k] fails. *)
Definition env_map_fail (k : nat) : ctor_env :=
  CtorEnv KOk (fun i => 0x1000 * (Z.of_nat i + 1)) KOk 0x100
          (fun i => if Nat.eqb i k then KErr 12 else KOk) 0xc0000000 0x80001000.

(** As [env_ok], but the first [alloc_page] fails. *)
Definition env_alloc_fail : ctor_env :=
  CtorEnv KOk (fun _ => 0) KOk 0x100 (fun _ => KOk) 0xc0000000 0x80001000.

(** [dma_alloc_attrs] returns NULL. *)
Definition env_dma_fail : ctor_env :=
  CtorEnv KOk (fun _ => 0) KOk 0 (fun _ => KOk) 0 0.

(** The environment in which [obj_at offset] is created by the DMA
    backend: the buffer is at bus address [offset]. *)
Definition env_dma_at (offset : Z) : ctor_env :=
  CtorEnv KOk (fun _ => 0) KOk 0 (fun _ => KOk) 0xc0000000 offset.

Definition args_1_page : nvkm_instobj_args := Args 0x1000 0x1000.

Definition args_4_pages : nvkm_instobj_args := Args 0x4000 0x1000.
Definition args_2_pages : nvkm_instobj_args := Args 0x2000 0x1000.

(** Two pages of 64 KiB. *)
Definition args_2_large_pages : nvkm_instobj_args := Args 0x20000 0x10000.

(** A created object whose memory starts at GPU address [offset]. *)
Definition obj_at (offset : Z) : object :=
  ObjDma (InstObjDma (InstObj offset 0x1000 true (Mem offset 1 0 12 [RegionEmbedded]))
                     0xc0000000 offset (MmNode 12 (u32 (Z.shiftr offset 12)) 1)).

(** Two objects one page apart, and two objects 2^44 bytes apart. *)
Definition trace_two_pages : list access :=
  [Write32 (obj_at 0x80001000) 0 1; Read32 (obj_at 0x80002000) 0].

Definition trace_two_windows : list access :=
  [Read32 (obj_at 0x100000) 0; Read32 (obj_at (2 ^ 44 + 0x100000)) 0].

(** ** Further notions *)

(** The window register of the store holds what the cache says. *)
Definition window_coherent (imem : gk20a_instmem) (w : world) : Prop :=
  w_regs w !! 0x001700 = Some (Z.shiftr (imem_addr imem) 16).

(** A register access the accessors may make: a write to the window
    register of a 28-bit value whose low four bits are zero, or a 32-bit
    access inside the 1 MiB aperture at 0x700000. *)
Definition in_aperture (e : event) : Prop :=
  match e with
  | EvWr32 reg data =>
      (reg = 0x001700 /\ 0 <= data < 2 ^ 28 /\ data mod 16 = 0) \/
      (0x700000 <= reg <= 0x7fffff /\ 0 <= data < 2 ^ 32)
  | EvRd32 reg => 0x700000 <= reg <= 0x7fffff
  | _ => False
  end.

(** The window of the last access of a sequence, [cached] for the empty
    one. *)
Definition last_base (cached : Z) (l : list access) : Z :=
  foldl (fun _ a => window_base (access_gpu a)) cached l.

(** The [pages] array of an object, empty for an object of the DMA
    backend, which has none. *)
Definition pages_of (o : object) : list Z :=
  match o with
  | ObjIommu n => pages n
  | ObjDma _ => []
  end.

(** * Proofs *)

(** ** Integers *)

Lemma land_mask_range (g m : Z) : 0 <= m -> 0 <= Z.land g m <= m.
Proof.
  intros Hm. apply Z.ldiff_le; [exact Hm |].
  apply Z.bits_inj'. intros n Hn.
  rewrite Z.ldiff_spec, Z.land_spec, Z.bits_0.
  destruct (Z.testbit g n), (Z.testbit m n); reflexivity.
Qed.

Lemma window_base_range (g : Z) : 0 <= window_base g <= 0xffffff00000.
Proof. unfold window_base. apply land_mask_range. lia. Qed.

Lemma window_addr_range (g : Z) : 0 <= window_addr g <= 0xfffff.
Proof. unfold window_addr. apply land_mask_range. lia. Qed.

Lemma u32_small (x : Z) : 0 <= x < 2 ^ 32 -> u32 x = x.
Proof. intros H. unfold u32, wrap. apply Z.mod_small. exact H. Qed.

Lemma u64_small (x : Z) : 0 <= x < 2 ^ 64 -> u64 x = x.
Proof. intros H. unfold u64, wrap. apply Z.mod_small. exact H. Qed.

Lemma u64_range (x : Z) : 0 <= u64 x < 2 ^ 64.
Proof. unfold u64, wrap. apply Z.mod_pos_bound. lia. Qed.

Lemma u32_range (x : Z) : 0 <= u32 x < 2 ^ 32.
Proof. unfold u32, wrap. apply Z.mod_pos_bound. lia. Qed.

Lemma u32_data_reg (g : Z) : u32 (0x700000 + window_addr g) = 0x700000 + window_addr g.
Proof. pose proof (window_addr_range g). apply u32_small. lia. Qed.

Lemma u32_window_reg (g : Z) :
  u32 (Z.shiftr (window_base g) 16) = Z.shiftr (window_base g) 16.
Proof.
  pose proof (window_base_range g) as H. apply u32_small.
  rewrite Z.shiftr_div_pow2 by lia. split.
  - apply Z.div_pos; lia.
  - apply Z.div_lt_upper_bound; lia.
Qed.

Lemma window_base_not_sentinel (g : Z) : window_base g <> u64 (Z.lnot 0).
Proof.
  pose proof (window_base_range g) as H.
  change (u64 (Z.lnot 0)) with 18446744073709551615. lia.
Qed.

(** Below 2^44 the mask of the code and the mask of the specification
    select the same bits. *)
Lemma window_base_spec (g : Z) :
  0 <= g < 2 ^ 44 -> window_base g = spec_window_base g.
Proof.
  intros Hg. unfold window_base, spec_window_base.
  assert (Z.land g (Z.ones 44) = g) as E.
  { rewrite Z.land_ones by lia. apply Z.mod_small. exact Hg. }
  rewrite <- E at 2. rewrite <- Z.land_assoc. f_equal.
Qed.

Lemma window_addr_spec (g : Z) : window_addr g = spec_in_window g.
Proof. reflexivity. Qed.

(** ** The PRAMIN window *)

Lemma created_mem (pf : platform) (o : object) :
  created pf o -> mem (obj_base o) = true.
Proof.
  intros (env & imem & args & w & w' & H).
  unfold gk20a_instobj_ctor, bind in H.
  match type of H with
  | match ?c with _ => _ end = _ => destruct c as [[[ret node] w1] |]
  end; [| discriminate].
  destruct (negb (ret =? 0)) eqn:Hret; unfold pure in H.
  - injection H as -> _ _. discriminate Hret.
  - injection H as Ho _. destruct node as [[n | n] |]; simpl in Ho;
      [| | discriminate]; injection Ho as <-; reflexivity.
Qed.

(** [gk20a_instobj_rd32] in closed form. *)
Lemma rd32_run (imem : gk20a_instmem) (o : object) (offset : Z) (w : world) :
  mem (obj_base o) = true ->
  let g := gpu_offset (_mem (obj_base o)) offset in
  let regs := repoint_regs (imem_addr imem) g (w_regs w) in
  gk20a_instobj_rd32 imem o offset w =
  Some ((default 0 (regs !! (0x700000 + window_addr g)), repoint_imem imem g),
        World regs (w_pages w) (w_iommu w) (w_mm w) (w_dma w)
              (w_trace w ++ access_events (imem_addr imem) g
                                          (EvRd32 (0x700000 + window_addr g)))).
Proof.
  intros Hmem g regs. subst regs.
  unfold gk20a_instobj_rd32, node_mem, bind. rewrite Hmem. unfold pure. fold g.
  unfold repoint_regs, repoint_imem, access_events.
  destruct (imem_addr imem =? window_base g); simpl;
    unfold nvkm_rd32, nvkm_wr32; simpl;
    rewrite ?u32_data_reg, ?u32_window_reg; [reflexivity |].
  rewrite <- app_assoc. reflexivity.
Qed.

(** [gk20a_instobj_wr32] in closed form. *)
Lemma wr32_run (imem : gk20a_instmem) (o : object) (offset data : Z) (w : world) :
  mem (obj_base o) = true ->
  let g := gpu_offset (_mem (obj_base o)) offset in
  gk20a_instobj_wr32 imem o offset data w =
  Some (repoint_imem imem g,
        World (<[0x700000 + window_addr g := u32 data]>
                 (repoint_regs (imem_addr imem) g (w_regs w)))
              (w_pages w) (w_iommu w) (w_mm w) (w_dma w)
              (w_trace w ++ access_events (imem_addr imem) g
                                          (EvWr32 (0x700000 + window_addr g) (u32 data)))).
Proof.
  intros Hmem g.
  unfold gk20a_instobj_wr32, node_mem, bind. rewrite Hmem. unfold pure. fold g.
  unfold repoint_regs, repoint_imem, access_events.
  destruct (imem_addr imem =? window_base g); simpl;
    unfold nvkm_wr32; simpl;
    rewrite ?u32_data_reg, ?u32_window_reg; [reflexivity |].
  rewrite <- app_assoc. reflexivity.
Qed.

Lemma repoint_imem_addr (imem : gk20a_instmem) (g : Z) :
  imem_addr (repoint_imem imem g) = window_base g.
Proof.
  unfold repoint_imem. destruct (imem_addr imem =? window_base g) eqn:E.
  - apply Z.eqb_eq. exact E.
  - reflexivity.
Qed.

Lemma repoint_imem_domain (imem : gk20a_instmem) (g : Z) :
  imem_domain (repoint_imem imem g) = imem_domain imem.
Proof. unfold repoint_imem. destruct (_ =? _); reflexivity. Qed.

Lemma repoint_imem_pgshift (imem : gk20a_instmem) (g : Z) :
  imem_iommu_pgshift (repoint_imem imem g) = imem_iommu_pgshift imem.
Proof. unfold repoint_imem. destruct (_ =? _); reflexivity. Qed.

Lemma count_events_app (f : event -> bool) (a b : list event) :
  count_events f (a ++ b) = (count_events f a + count_events f b)%nat.
Proof. unfold count_events. rewrite List.filter_app, length_app. reflexivity. Qed.

Lemma count_repoint_access (cached g : Z) (e : event) :
  is_repoint e = false ->
  count_events is_repoint (access_events cached g e) =
  if cached =? window_base g then 0%nat else 1%nat.
Proof.
  intros He. unfold access_events, count_events.
  destruct (cached =? window_base g); simpl; rewrite He; reflexivity.
Qed.

Lemma data_reg_not_window (g : Z) (d : Z) :
  is_repoint (EvWr32 (0x700000 + window_addr g) d) = false.
Proof.
  pose proof (window_addr_range g). simpl. apply Z.eqb_neq. lia.
Qed.

Lemma do_access_run (imem : gk20a_instmem) (a : access) (w : world) :
  mem (obj_base (access_object a)) = true ->
  exists w' tr,
    do_access imem a w = Some (repoint_imem imem (access_gpu a), w') /\
    w_trace w' = w_trace w ++ tr /\
    count_events is_repoint tr =
      (if imem_addr imem =? window_base (access_gpu a) then 0%nat else 1%nat).
Proof.
  intros Hmem. destruct a as [o offset | o offset data]; simpl in *.
  - unfold bind. rewrite rd32_run by exact Hmem. simpl. eexists _, _.
    split; [reflexivity |]. split; [reflexivity |].
    apply count_repoint_access. reflexivity.
  - rewrite wr32_run by exact Hmem. eexists _, _.
    split; [reflexivity |]. split; [reflexivity |].
    apply count_repoint_access. apply data_reg_not_window.
Qed.

Lemma run_accesses_repoints (l : list access) :
  forall (imem : gk20a_instmem) (w : world),
  Forall (fun a => mem (obj_base (access_object a)) = true) l ->
  exists imem' w' tr,
    run_accesses imem l w = Some (imem', w') /\
    w_trace w' = w_trace w ++ tr /\
    count_events is_repoint tr = repoints_from (imem_addr imem) (map access_gpu l).
Proof.
  induction l as [| a l IH]; intros imem w Hall.
  - exists imem, w, []. simpl. rewrite app_nil_r. auto.
  - inversion Hall as [| ? ? Ha Hl]; subst.
    destruct (do_access_run imem a w Ha) as (w1 & tr1 & Hrun & Htr1 & Hc1).
    destruct (IH (repoint_imem imem (access_gpu a)) w1 Hl)
      as (imem' & w' & tr2 & Hrun2 & Htr2 & Hc2).
    exists imem', w', (tr1 ++ tr2). simpl. unfold bind. rewrite Hrun.
    split; [exact Hrun2 |]. split.
    + rewrite Htr2, Htr1, app_assoc. reflexivity.
    + rewrite count_events_app, Hc1, Hc2, repoint_imem_addr.
      destruct (imem_addr imem =? window_base (access_gpu a)); reflexivity.
Qed.

Lemma repoints_from_crossings (g : Z) (gs : list Z) :
  repoints_from (window_base g) gs = crossings window_base (g :: gs).
Proof.
  revert g. induction gs as [| h gs IH]; intros g; [reflexivity |].
  cbn [repoints_from]. rewrite IH. reflexivity.
Qed.

Lemma repoints_from_invalidated (gs : list Z) :
  repoints_from (u64 (Z.lnot 0)) gs = spec_repoints window_base gs.
Proof.
  destruct gs as [| g gs]; [reflexivity |].
  cbn [repoints_from].
  destruct (Z.eqb_spec (u64 (Z.lnot 0)) (window_base g)) as [E | _].
  - exfalso. apply (window_base_not_sentinel g). symmetry. exact E.
  - rewrite repoints_from_crossings. reflexivity.
Qed.

Lemma crossings_ext (f h : Z -> Z) (gs : list Z) :
  Forall (fun g => f g = h g) gs -> crossings f gs = crossings h gs.
Proof.
  induction 1 as [| a gs Ha Hgs IH]; [reflexivity |].
  destruct Hgs as [| b gs Hb Hgs]; [reflexivity |].
  change (crossings f (a :: b :: gs)) with
    (if f a =? f b then crossings f (b :: gs) else S (crossings f (b :: gs))).
  change (crossings h (a :: b :: gs)) with
    (if h a =? h b then crossings h (b :: gs) else S (crossings h (b :: gs))).
  rewrite Ha, Hb, IH. reflexivity.
Qed.

Lemma spec_repoints_ext (f h : Z -> Z) (gs : list Z) :
  Forall (fun g => f g = h g) gs -> spec_repoints f gs = spec_repoints h gs.
Proof.
  intros H. destruct gs as [| g gs]; [reflexivity |].
  unfold spec_repoints. f_equal. apply crossings_ext. exact H.
Qed.

Lemma gpu_offset_range (m : nvkm_mem) (offset : Z) : 0 <= gpu_offset m offset < 2 ^ 64.
Proof. apply u64_range. Qed.

(** C3: for every created instance object and every byte offset, in range
    or not, [gk20a_instobj_wr32] of a 32-bit value [v] followed
    immediately by [gk20a_instobj_rd32] at the same offset returns [v],
    the register interface being a store addressed by register offset. *)
Theorem wr32_rd32_roundtrip (pf : platform) (imem : gk20a_instmem) (o : object)
    (offset v : Z) (w : world) :
  created pf o ->
  0 <= v < 2 ^ 32 ->
  exists imem1 w1 imem2 w2,
    gk20a_instobj_wr32 imem o offset v w = Some (imem1, w1) /\
    gk20a_instobj_rd32 imem1 o offset w1 = Some ((v, imem2), w2).
Proof.
  intros Hc Hv. pose proof (created_mem pf o Hc) as Hmem.
  eexists _, _, _, _. split.
  - apply wr32_run. exact Hmem.
  - rewrite rd32_run by exact Hmem. cbn [w_regs w_trace].
    rewrite repoint_imem_addr. unfold repoint_regs at 1.
    rewrite Z.eqb_refl, lookup_insert_eq. cbn [default].
    rewrite (u32_small v Hv). reflexivity.
Qed.

Lemma wr32_rd32_roundtrip_witness :
  exists imem1 w1 imem2 w2,
    gk20a_instobj_wr32 imem_dma (obj_at 0x80001000) 8 0xcafe empty_world = Some (imem1, w1) /\
    gk20a_instobj_rd32 imem1 (obj_at 0x80001000) 8 w1 = Some ((0xcafe, imem2), w2).
Proof.
  apply (wr32_rd32_roundtrip tegra_k1).
  - exists (env_dma_at 0x80001000), imem_dma, args_1_page, empty_world.
    eexists. vm_compute. reflexivity.
  - lia.
Defined.

(** C4, as the code has it: for every created object and offset, with
    [g] the GPU address of the access, both accessors take
    [g & 0xffffff00000] as the window base, which is [g & ~(window_size-1)]
    whenever [g] is below 2^44, and [g & (window_size-1)] as the offset in
    the window; they write the window register once, caching the base,
    when the base differs from the cached one and not at all when it is
    equal, and then make one 32-bit access at 0x700000 plus the offset in
    the window. *)
Theorem pramin_access_window (pf : platform) (imem : gk20a_instmem) (o : object)
    (offset data : Z) (w : world) :
  created pf o ->
  let g := gpu_offset (_mem (obj_base o)) offset in
  let reg := 0x700000 + spec_in_window g in
  window_base g = Z.land g 0xffffff00000 /\
  (g < 2 ^ 44 -> window_base g = spec_window_base g) /\
  access_events (window_base g) g (EvRd32 reg) = [EvRd32 reg] /\
  (imem_addr imem <> window_base g ->
   access_events (imem_addr imem) g (EvRd32 reg) =
     [EvWr32 0x001700 (Z.shiftr (window_base g) 16); EvRd32 reg]) /\
  (exists v imem' w',
     gk20a_instobj_rd32 imem o offset w = Some ((v, imem'), w') /\
     imem_addr imem' = window_base g /\
     w_trace w' = w_trace w ++ access_events (imem_addr imem) g (EvRd32 reg)) /\
  (exists imem' w',
     gk20a_instobj_wr32 imem o offset data w = Some (imem', w') /\
     imem_addr imem' = window_base g /\
     w_trace w' = w_trace w ++ access_events (imem_addr imem) g (EvWr32 reg (u32 data))).
Proof.
  intros Hc g reg. pose proof (created_mem pf o Hc) as Hmem.
  split; [reflexivity |]. split.
  { intros Hg. apply window_base_spec. pose proof (gpu_offset_range (_mem (obj_base o)) offset).
    fold g in H. lia. }
  split.
  { unfold access_events. rewrite Z.eqb_refl. reflexivity. }
  split.
  { intros Hne. unfold access_events.
    destruct (Z.eqb_spec (imem_addr imem) (window_base g)); [contradiction | reflexivity]. }
  split.
  - eexists _, _, _. split; [apply rd32_run; exact Hmem |].
    split; [apply repoint_imem_addr | reflexivity].
  - eexists _, _. split; [apply wr32_run; exact Hmem |].
    split; [apply repoint_imem_addr | reflexivity].
Qed.

Lemma pramin_access_window_witness :
  let g := gpu_offset (_mem (obj_base (obj_at 0x80001000))) 8 in
  let reg := 0x700000 + spec_in_window g in
  window_base g = Z.land g 0xffffff00000 /\
  (g < 2 ^ 44 -> window_base g = spec_window_base g) /\
  access_events (window_base g) g (EvRd32 reg) = [EvRd32 reg] /\
  (imem_addr imem_dma <> window_base g ->
   access_events (imem_addr imem_dma) g (EvRd32 reg) =
     [EvWr32 0x001700 (Z.shiftr (window_base g) 16); EvRd32 reg]) /\
  (exists v imem' w',
     gk20a_instobj_rd32 imem_dma (obj_at 0x80001000) 8 empty_world = Some ((v, imem'), w') /\
     imem_addr imem' = window_base g /\
     w_trace w' = w_trace empty_world
                    ++ access_events (imem_addr imem_dma) g (EvRd32 reg)) /\
  (exists imem' w',
     gk20a_instobj_wr32 imem_dma (obj_at 0x80001000) 8 0xcafe empty_world = Some (imem', w') /\
     imem_addr imem' = window_base g /\
     w_trace w' = w_trace empty_world
                    ++ access_events (imem_addr imem_dma) g (EvWr32 reg (u32 0xcafe))).
Proof.
  apply (pramin_access_window tegra_k1).
  exists (env_dma_at 0x80001000), imem_dma, args_1_page, empty_world.
  eexists. vm_compute. reflexivity.
Defined.

(** C4 as stated fails: for the object a 64-bit platform creates at bus
    address 2^44 the accessor caches window base 0, not
    [gpu_offset & ~(window_size-1)], which is 2^44. *)
Lemma window_base_above_44_bits :
  created arm64_4k (obj_at (2 ^ 44)) /\
  exists v imem' w',
    gk20a_instobj_rd32 imem_invalidated (obj_at (2 ^ 44)) 0 empty_world
      = Some ((v, imem'), w') /\
    imem_addr imem' = 0 /\
    spec_window_base (gpu_offset (_mem (obj_base (obj_at (2 ^ 44)))) 0) = 2 ^ 44 /\
    imem_addr imem' <> spec_window_base (gpu_offset (_mem (obj_base (obj_at (2 ^ 44)))) 0).
Proof.
  split.
  { exists (env_dma_at (2 ^ 44)), imem_dma, args_1_page, empty_world.
    eexists. vm_compute. reflexivity. }
  eexists _, _, _. split; [vm_compute; reflexivity |].
  split; [reflexivity |]. split; [reflexivity |]. vm_compute. discriminate.
Qed.

(** C5, as the code has it: for every finite sequence of accesses to
    created objects that starts from an invalidated cache, the number of
    writes to the window register is one for the first access plus one for
    each pair of consecutive accesses whose GPU addresses differ in
    [g & 0xffffff00000], the 1 MiB window within the low 44 bits; when all
    addresses are below 2^44 that is each crossing of a [window_size]
    boundary. *)
Theorem repoints_of_trace (pf : platform) (imem : gk20a_instmem) (l : list access)
    (w : world) :
  invalidated imem ->
  Forall (fun a => created pf (access_object a)) l ->
  exists imem' w' tr,
    run_accesses imem l w = Some (imem', w') /\
    w_trace w' = w_trace w ++ tr /\
    count_events is_repoint tr = spec_repoints window_base (map access_gpu l) /\
    (Forall (fun a => access_gpu a < 2 ^ 44) l ->
     count_events is_repoint tr = spec_repoints spec_window_base (map access_gpu l)).
Proof.
  intros Hinv Hall.
  assert (Forall (fun a => mem (obj_base (access_object a)) = true) l) as Hmem.
  { eapply List.Forall_impl; [| exact Hall]. intros a. apply created_mem. }
  destruct (run_accesses_repoints l imem w Hmem) as (imem' & w' & tr & Hrun & Htr & Hc).
  exists imem', w', tr. split; [exact Hrun |]. split; [exact Htr |].
  rewrite Hinv, repoints_from_invalidated in Hc. split; [exact Hc |].
  intros Hlow. rewrite Hc. apply spec_repoints_ext.
  apply Forall_fmap. eapply List.Forall_impl; [| exact Hlow].
  intros a Ha. simpl. apply window_base_spec. split; [| exact Ha].
  apply gpu_offset_range.
Qed.

Lemma repoints_of_trace_witness :
  exists imem' w' tr,
    run_accesses imem_invalidated trace_two_pages empty_world = Some (imem', w') /\
    w_trace w' = w_trace empty_world ++ tr /\
    count_events is_repoint tr = spec_repoints window_base (map access_gpu trace_two_pages) /\
    (Forall (fun a => access_gpu a < 2 ^ 44) trace_two_pages ->
     count_events is_repoint tr
       = spec_repoints spec_window_base (map access_gpu trace_two_pages)).
Proof.
  apply (repoints_of_trace tegra_k1).
  - reflexivity.
  - repeat constructor.
    + exists (env_dma_at 0x80001000), imem_dma, args_1_page, empty_world.
      eexists. vm_compute. reflexivity.
    + exists (env_dma_at 0x80002000), imem_dma, args_1_page, empty_world.
      eexists. vm_compute. reflexivity.
Defined.

(** C5 as stated fails, whether its "page" is the 4 KiB page or the
    window of [window_size] bytes: two accesses one page apart cross a
    page boundary and two accesses 2^44 bytes apart cross a window
    boundary, the formula gives 2 repoints for each pair, and the code
    issues 1.  All four objects are objects the constructor returns. *)
Lemma repoints_differ_from_formula :
  (Forall (fun a => created tegra_k1 (access_object a)) trace_two_pages /\
   exists imem' w',
     run_accesses imem_invalidated trace_two_pages empty_world = Some (imem', w') /\
     count_events is_repoint (w_trace w') = 1%nat /\
     spec_repoints (spec_page tegra_k1) (map access_gpu trace_two_pages) = 2%nat) /\
  (Forall (fun a => created arm64_4k (access_object a)) trace_two_windows /\
   exists imem' w',
     run_accesses imem_invalidated trace_two_windows empty_world = Some (imem', w') /\
     count_events is_repoint (w_trace w') = 1%nat /\
     spec_repoints spec_window_base (map access_gpu trace_two_windows) = 2%nat /\
     spec_repoints (spec_page arm64_4k) (map access_gpu trace_two_windows) = 2%nat).
Proof.
  split; split.
  - repeat constructor.
    + exists (env_dma_at 0x80001000), imem_dma, args_1_page, empty_world.
      eexists. vm_compute. reflexivity.
    + exists (env_dma_at 0x80002000), imem_dma, args_1_page, empty_world.
      eexists. vm_compute. reflexivity.
  - eexists _, _. split; [vm_compute; reflexivity |].
    split; vm_compute; reflexivity.
  - repeat constructor.
    + exists (env_dma_at 0x100000), imem_dma, args_1_page, empty_world.
      eexists. vm_compute. reflexivity.
    + exists (env_dma_at (2 ^ 44 + 0x100000)), imem_dma, args_1_page, empty_world.
      eexists. vm_compute. reflexivity.
  - eexists _, _. split; [vm_compute; reflexivity |].
    repeat split; vm_compute; reflexivity.
Qed.



(** ** The loops of the IOMMU backend *)

Lemma world_eta (w : world) :
  World (w_regs w) (w_pages w) (w_iommu w) (w_mm w) (w_dma w) (w_trace w) = w.
Proof. destruct w. reflexivity. Qed.

Lemma alloc_list_S (env : ctor_env) (i n : nat) :
  alloc_list env i (S n) = env_alloc_page env i :: alloc_list env (S i) n.
Proof. reflexivity. Qed.

Lemma ctor_iommu_alloc_ok (env : ctor_env) (n : nat) :
  forall (done : list Z) (w : world),
  (forall j : nat, (j < n)%nat -> env_alloc_page env (length done + j) <> 0) ->
  ctor_iommu_alloc env (done ++ replicate n 0) n (length done) w =
  Some ((true, done ++ alloc_list env (length done) n),
        World (w_regs w)
              (w_pages w ⊎ list_to_set_disj (alloc_list env (length done) n))
              (w_iommu w) (w_mm w) (w_dma w)
              (w_trace w ++ (EvAllocPage <$> alloc_list env (length done) n))).
Proof.
  induction n as [| n IH]; intros done w Hok.
  - simpl. unfold pure, alloc_list. simpl.
    rewrite !app_nil_r, (right_id_L ∅ (⊎)), world_eta. reflexivity.
  - cbn [ctor_iommu_alloc]. unfold bind, alloc_page.
    assert (env_alloc_page env (length done) <> 0) as Hp.
    { specialize (Hok 0%nat). rewrite Nat.add_0_r in Hok. apply Hok. lia. }
    apply Z.eqb_neq in Hp. rewrite Hp.
    replace (<[length done := env_alloc_page env (length done)]>
               (done ++ replicate (S n) 0))
      with ((done ++ [env_alloc_page env (length done)]) ++ replicate n 0).
    2:{ rewrite insert_app_r_alt by lia. rewrite Nat.sub_diag. simpl.
        rewrite <- app_assoc. reflexivity. }
    replace (S (length done)) with (length (done ++ [env_alloc_page env (length done)]))
      by (rewrite length_app; simpl; lia).
    rewrite IH.
    2:{ intros j Hj. rewrite length_app. simpl.
        replace (length done + 1 + j)%nat with (length done + S j)%nat by lia.
        apply Hok. lia. }
    cbn [w_regs w_pages w_iommu w_mm w_dma w_trace].
    rewrite length_app. simpl length. rewrite Nat.add_1_r, alloc_list_S.
    rewrite <- !app_assoc. simpl. f_equal. f_equal. f_equal.
    multiset_solver.
Qed.

Lemma ctor_iommu_alloc_fail (env : ctor_env) (k : nat) :
  forall (n : nat) (done : list Z) (w : world),
  (k < n)%nat ->
  (forall j : nat, (j < k)%nat -> env_alloc_page env (length done + j) <> 0) ->
  env_alloc_page env (length done + k) = 0 ->
  ctor_iommu_alloc env (done ++ replicate n 0) n (length done) w =
  Some ((false, done ++ alloc_list env (length done) k ++ replicate (n - k) 0),
        World (w_regs w)
              (w_pages w ⊎ list_to_set_disj (alloc_list env (length done) k))
              (w_iommu w) (w_mm w) (w_dma w)
              (w_trace w ++ (EvAllocPage <$> alloc_list env (length done) k)
                 ++ [EvAllocPage 0])).
Proof.
  induction k as [| k IH]; intros n done w Hk Hok Hfail;
    (destruct n as [| n]; [lia |]).
  - cbn [ctor_iommu_alloc]. unfold bind, alloc_page.
    rewrite Nat.add_0_r in Hfail. rewrite Hfail. simpl. unfold pure, alloc_list. simpl.
    rewrite (right_id_L ∅ (⊎)). reflexivity.
  - cbn [ctor_iommu_alloc]. unfold bind, alloc_page.
    assert (env_alloc_page env (length done) <> 0) as Hp.
    { specialize (Hok 0%nat). rewrite Nat.add_0_r in Hok. apply Hok. lia. }
    apply Z.eqb_neq in Hp. rewrite Hp.
    replace (<[length done := env_alloc_page env (length done)]>
               (done ++ replicate (S n) 0))
      with ((done ++ [env_alloc_page env (length done)]) ++ replicate n 0).
    2:{ rewrite insert_app_r_alt by lia. rewrite Nat.sub_diag. simpl.
        rewrite <- app_assoc. reflexivity. }
    replace (S (length done)) with (length (done ++ [env_alloc_page env (length done)]))
      by (rewrite length_app; simpl; lia).
    rewrite (IH n); [| lia | |].
    2:{ intros j Hj. rewrite length_app. simpl.
        replace (length done + 1 + j)%nat with (length done + S j)%nat by lia.
        apply Hok. lia. }
    2:{ rewrite length_app. simpl.
        replace (length done + 1 + k)%nat with (length done + S k)%nat by lia.
        exact Hfail. }
    cbn [w_regs w_pages w_iommu w_mm w_dma w_trace].
    rewrite length_app. simpl length. rewrite Nat.add_1_r, alloc_list_S.
    rewrite <- !app_assoc. simpl. f_equal. f_equal. f_equal.
    multiset_solver.
Qed.

Lemma pages_difference_empty (X : gmultiset Z) : X ∖ ∅ = X.
Proof. multiset_solver. Qed.

Lemma pages_difference_cons (X Y : gmultiset Z) (p : Z) :
  X ∖ {[+ p +]} ∖ Y = X ∖ ({[+ p +]} ⊎ Y).
Proof. multiset_solver. Qed.

Lemma pages_union_difference (X Y : gmultiset Z) : (X ⊎ Y) ∖ Y = X.
Proof. multiset_solver. Qed.

Lemma ctor_iommu_free_pages_run (ps : list Z) :
  forall (rest : list Z) (w : world),
  Forall (fun p => p <> 0) ps ->
  head rest = None \/ head rest = Some 0 ->
  ctor_iommu_free_pages (ps ++ rest) w =
  Some (tt, World (w_regs w) (w_pages w ∖ list_to_set_disj ps) (w_iommu w) (w_mm w)
                  (w_dma w) (w_trace w ++ (EvFreePage <$> ps))).
Proof.
  induction ps as [| p ps IH]; intros rest w Hnz Hrest.
  - simpl. rewrite app_nil_r.
    rewrite pages_difference_empty, world_eta.
    destruct rest as [| q rest]; [reflexivity |].
    destruct Hrest as [Hrest | Hrest]; [discriminate |].
    simpl in Hrest. replace q with 0 by congruence. reflexivity.
  - inversion Hnz as [| ? ? Hp Hps]; subst.
    simpl. apply Z.eqb_neq in Hp. rewrite Hp. unfold bind, __free_page.
    rewrite (IH rest _ Hps Hrest).
    cbn [w_regs w_pages w_iommu w_mm w_dma w_trace].
    rewrite <- app_assoc, pages_difference_cons. reflexivity.
Qed.

Lemma alloc_list_nonzero (env : ctor_env) (i n : nat) :
  (forall j : nat, (j < n)%nat -> env_alloc_page env (i + j) <> 0) ->
  Forall (fun p => p <> 0) (alloc_list env i n).
Proof.
  intros H. unfold alloc_list. apply Forall_fmap, List.Forall_forall.
  intros j Hj. apply in_seq in Hj. simpl.
  replace j with (i + (j - i))%nat by lia. apply H. lia.
Qed.

Lemma ctor_iommu_unwind_run (pf : platform) (k : nat) :
  forall (offset : Z) (w : world),
  ctor_iommu_unwind pf offset k w =
  Some (tt, World (w_regs w) (w_pages w)
                  (foldl iommu_delete (w_iommu w) (unwind_addrs pf offset k))
                  (w_mm w) (w_dma w)
                  (w_trace w ++ (EvIommuUnmap <$> unwind_addrs pf offset k))).
Proof.
  induction k as [| k IH]; intros offset w.
  - simpl. rewrite app_nil_r, world_eta. reflexivity.
  - cbn [ctor_iommu_unwind unwind_addrs]. unfold bind, iommu_unmap. rewrite IH.
    cbn [w_regs w_pages w_iommu w_mm w_dma w_trace].
    rewrite <- app_assoc. reflexivity.
Qed.

Lemma page_at_lookup (pgs : list Z) (j : nat) (p : Z) :
  pgs !! j = Some p -> page_at pgs j = p.
Proof. intros H. unfold page_at. rewrite H. reflexivity. Qed.

Lemma ctor_iommu_map_ok (pf : platform) (env : ctor_env) (imem : gk20a_instmem)
    (r_offset : Z) (pgs : list Z) (n : nat) :
  forall (i : nat) (w : world),
  (i + n <= length pgs)%nat ->
  (forall j : nat, (i <= j < i + n)%nat -> env_iommu_map env j = KOk) ->
  ctor_iommu_map pf env imem r_offset pgs n i w =
  Some (0, World (w_regs w) (w_pages w)
                 (foldl (iommu_insert pf imem r_offset pgs) (w_iommu w) (seq i n))
                 (w_mm w) (w_dma w)
                 (w_trace w ++ (map_event pf imem r_offset pgs 0 <$> seq i n))).
Proof.
  induction n as [| n IH]; intros i w Hlen Hok.
  - simpl. rewrite app_nil_r, world_eta. reflexivity.
  - cbn [ctor_iommu_map].
    destruct (lookup_lt_is_Some_2 pgs i) as [p Hp]; [lia |].
    rewrite Hp. unfold bind, iommu_map. rewrite (Hok i) by lia.
    cbn [kret_int]. change (0 <? 0) with false. cbv iota.
    rewrite IH; [| lia | intros j Hj; apply Hok; lia].
    cbn [w_regs w_pages w_iommu w_mm w_dma w_trace].
    rewrite <- (page_at_lookup pgs i p Hp), <- app_assoc. reflexivity.
Qed.

Lemma ctor_iommu_map_fail (pf : platform) (env : ctor_env) (imem : gk20a_instmem)
    (r_offset : Z) (pgs : list Z) (e : positive) (d : nat) :
  forall (n i : nat) (w : world),
  (d < n)%nat ->
  (i + n <= length pgs)%nat ->
  (forall j : nat, (i <= j < i + d)%nat -> env_iommu_map env j = KOk) ->
  env_iommu_map env (i + d) = KErr e ->
  ctor_iommu_map pf env imem r_offset pgs n i w =
  Some (Z.neg e,
        World (w_regs w) (w_pages w)
              (foldl iommu_delete
                     (foldl (iommu_insert pf imem r_offset pgs) (w_iommu w) (seq i d))
                     (unwind_addrs pf (iova imem r_offset (i + d)) (i + d)))
              (w_mm w) (w_dma w)
              (w_trace w ++ (map_event pf imem r_offset pgs 0 <$> seq i d)
                 ++ [map_event pf imem r_offset pgs (Z.neg e) (i + d);
                     EvError (MsgIommuMappingFailure (Z.neg e))]
                 ++ (EvIommuUnmap <$> unwind_addrs pf (iova imem r_offset (i + d)) (i + d)))).
Proof.
  induction d as [| d IH]; intros n i w Hd Hlen Hok Hfail;
    (destruct n as [| n]; [lia |]); cbn [ctor_iommu_map];
    (destruct (lookup_lt_is_Some_2 pgs i) as [p Hp]; [lia |]);
    rewrite Hp; unfold bind, iommu_map.
  - rewrite Nat.add_0_r in *. rewrite Hfail. cbn [kret_int].
    change (Z.neg e <? 0) with true. cbv iota. unfold nvkm_error, emit.
    cbn [w_regs w_pages w_iommu w_mm w_dma w_trace].
    rewrite ctor_iommu_unwind_run.
    cbn [w_regs w_pages w_iommu w_mm w_dma w_trace].
    rewrite <- (page_at_lookup pgs i p Hp), <- !app_assoc. reflexivity.
  - rewrite (Hok i) by lia. cbn [kret_int]. change (0 <? 0) with false. cbv iota.
    replace (i + S d)%nat with (S i + d)%nat in * by lia.
    rewrite (IH n (S i)); [| lia | lia | intros j Hj; apply Hok; lia | exact Hfail].
    cbn [w_regs w_pages w_iommu w_mm w_dma w_trace].
    rewrite <- (page_at_lookup pgs i p Hp), <- !app_assoc. reflexivity.
Qed.

(** ** Addresses *)

Lemma PAGE_SIZE_pow2 (pf : platform) :
  platform_ok pf -> PAGE_SIZE pf = 2 ^ PAGE_SHIFT pf.
Proof.
  intros [Hps Hbits]. unfold PAGE_SIZE, ulong, wrap.
  rewrite Z.shiftl_mul_pow2, Z.mul_1_l by lia.
  apply Z.mod_small. split; [apply Z.pow_nonneg; lia |].
  apply Z.pow_lt_mono_r; lia.
Qed.

Lemma iova_mul (imem : gk20a_instmem) (r_offset : Z) (j : nat) :
  0 <= imem_iommu_pgshift imem ->
  iova imem r_offset j =
  ((r_offset + Z.of_nat j) * 2 ^ imem_iommu_pgshift imem) mod 2 ^ 32.
Proof.
  intros Hp. unfold iova, u32, wrap.
  rewrite Z.shiftl_mul_pow2 by exact Hp.
  apply Z.mul_mod_idemp_l. lia.
Qed.

(** One step of the unwinding loop goes from the address of page [S k] to
    the address of page [k], when the IOMMU page is the kernel page. *)
Lemma iova_pred (pf : platform) (imem : gk20a_instmem) (r_offset : Z) (k : nat) :
  platform_ok pf ->
  imem_iommu_pgshift imem = PAGE_SHIFT pf ->
  u32 (iova imem r_offset (S k) - PAGE_SIZE pf) = iova imem r_offset k.
Proof.
  intros Hpf Hshift. pose proof Hpf as [Hps _].
  rewrite (PAGE_SIZE_pow2 pf Hpf), !iova_mul by lia. rewrite Hshift.
  unfold u32, wrap. rewrite Zminus_mod_idemp_l. f_equal. lia.
Qed.

Lemma unwind_addrs_iova (pf : platform) (imem : gk20a_instmem) (r_offset : Z) (k : nat) :
  platform_ok pf ->
  imem_iommu_pgshift imem = PAGE_SHIFT pf ->
  unwind_addrs pf (iova imem r_offset k) k = iova imem r_offset <$> reverse (seq 0 k).
Proof.
  intros Hpf Hshift. induction k as [| k IH]; [reflexivity |].
  cbn [unwind_addrs]. rewrite (iova_pred pf imem r_offset k Hpf Hshift), IH.
  rewrite seq_S, reverse_snoc. reflexivity.
Qed.

Lemma lookup_foldl_delete (l : list Z) :
  forall (m : gmap Z Z) (x : Z),
  foldl iommu_delete m l !! x = if decide (x ∈ l) then None else m !! x.
Proof.
  induction l as [| a l IH]; intros m x.
  - simpl. destruct (decide (x ∈ [])) as [Hin | _]; [| reflexivity].
    inversion Hin.
  - simpl. rewrite IH. unfold iommu_delete.
    destruct (decide (x ∈ l)) as [Hin | Hnin].
    + rewrite decide_True by (right; exact Hin). reflexivity.
    + destruct (decide (x = a)) as [-> | Hne].
      * rewrite decide_True by left. apply lookup_delete_eq.
      * rewrite decide_False by (intros Hin; inversion Hin; subst; contradiction).
        apply lookup_delete_ne. congruence.
Qed.

Lemma lookup_foldl_insert_notin (pf : platform) (imem : gk20a_instmem) (r_offset : Z)
    (pgs : list Z) (js : list nat) :
  forall (m : gmap Z Z) (x : Z),
  x ∉ (iova imem r_offset <$> js) ->
  foldl (iommu_insert pf imem r_offset pgs) m js !! x = m !! x.
Proof.
  induction js as [| j js IH]; intros m x Hx; [reflexivity |].
  simpl. rewrite IH.
  - unfold iommu_insert. apply lookup_insert_ne. intros E. apply Hx. rewrite <- E. left.
  - intros Hin. apply Hx. right. exact Hin.
Qed.

(** Unmapping every address that was mapped gives the IOMMU domain back
    as it was, provided the addresses mapped nothing before. *)
Lemma unmap_all_restores (pf : platform) (imem : gk20a_instmem) (r_offset : Z)
    (pgs : list Z) (js : list nat) (m : gmap Z Z) :
  (forall j : nat, j ∈ js -> m !! iova imem r_offset j = None) ->
  foldl iommu_delete (foldl (iommu_insert pf imem r_offset pgs) m js)
        (iova imem r_offset <$> reverse js) = m.
Proof.
  intros Hfresh. apply map_eq. intros x. rewrite lookup_foldl_delete.
  destruct (decide (x ∈ iova imem r_offset <$> reverse js)) as [Hin | Hnin].
  - apply list_elem_of_fmap in Hin as (j & -> & Hj).
    rewrite elem_of_reverse in Hj. symmetry. apply Hfresh. exact Hj.
  - apply lookup_foldl_insert_notin. intros Hin. apply Hnin.
    apply list_elem_of_fmap in Hin as (j & -> & Hj).
    apply list_elem_of_fmap. exists j. split; [reflexivity |].
    rewrite elem_of_reverse. exact Hj.
Qed.

(** ** The constructor of the IOMMU backend, path by path *)

Lemma new_node_fresh (w : world) : w_mm w !! new_node w = None.
Proof.
  apply not_elem_of_dom. unfold new_node.
  pose proof (is_fresh ({[0]} ∪ dom (w_mm w))) as H. set_solver.
Qed.

Lemma ctor_dispatch_iommu (pf : platform) (env : ctor_env) (imem : gk20a_instmem)
    (args : nvkm_instobj_args) (w : world) :
  imem_domain imem <> 0 ->
  gk20a_instobj_ctor pf env imem args w =
  match gk20a_instobj_ctor_iommu pf env imem (ctor_npages_z pf args) (ctor_align pf args) w with
  | Some ((ret, node), w') =>
      if negb (ret =? 0) then Some ((ret, node), w')
      else Some ((0, option_map (obj_map_base (ctor_finish (ctor_size pf args))) node), w')
  | None => None
  end.
Proof.
  intros Hdom. unfold gk20a_instobj_ctor, bind.
  apply Z.eqb_neq in Hdom. rewrite Hdom. cbn [negb].
  fold (ctor_size pf args). fold (ctor_align pf args). fold (ctor_npages_z pf args).
  destruct (gk20a_instobj_ctor_iommu _ _ _ _ _ _) as [[[ret node] w'] |]; [| reflexivity].
  destruct (negb (ret =? 0)); reflexivity.
Qed.

Lemma ctor_dispatch_dma (pf : platform) (env : ctor_env) (imem : gk20a_instmem)
    (args : nvkm_instobj_args) (w : world) :
  imem_domain imem = 0 ->
  gk20a_instobj_ctor pf env imem args w =
  match gk20a_instobj_ctor_dma pf env imem (ctor_npages_z pf args) (ctor_align pf args) w with
  | Some ((ret, node), w') =>
      if negb (ret =? 0) then Some ((ret, node), w')
      else Some ((0, option_map (obj_map_base (ctor_finish (ctor_size pf args))) node), w')
  | None => None
  end.
Proof.
  intros Hdom. unfold gk20a_instobj_ctor, bind.
  rewrite Hdom. cbn [Z.eqb negb].
  fold (ctor_size pf args). fold (ctor_align pf args). fold (ctor_npages_z pf args).
  destruct (gk20a_instobj_ctor_dma _ _ _ _ _ _) as [[[ret node] w'] |]; [| reflexivity].
  destruct (negb (ret =? 0)); reflexivity.
Qed.

(** [alloc_page] fails for page index [k], the first to fail. *)
Lemma ctor_iommu_alloc_failure (pf : platform) (env : ctor_env) (imem : gk20a_instmem)
    (args : nvkm_instobj_args) (w : world) (k : nat) :
  imem_domain imem <> 0 ->
  env_create env = KOk ->
  (k < ctor_npages pf args)%nat ->
  (forall j : nat, (j < k)%nat -> env_alloc_page env j <> 0) ->
  env_alloc_page env k = 0 ->
  gk20a_instobj_ctor pf env imem args w =
  Some ((- ENOMEM,
         Some (ObjIommu (InstObjIommu zero_instobj
                  (alloc_list env 0 k ++ replicate (ctor_npages pf args - k) 0)))),
        World (w_regs w) (w_pages w) (w_iommu w) (w_mm w) (w_dma w)
              (w_trace w ++ (EvAllocPage <$> alloc_list env 0 k) ++ [EvAllocPage 0]
                 ++ (EvFreePage <$> alloc_list env 0 k))).
Proof.
  intros Hdom Hcreate Hk Hok Hfail.
  rewrite ctor_dispatch_iommu by exact Hdom.
  unfold gk20a_instobj_ctor_iommu. rewrite Hcreate. unfold bind.
  fold (ctor_npages pf args).
  pose proof (ctor_iommu_alloc_fail env k (ctor_npages pf args) [] w Hk Hok Hfail) as E.
  cbn [app length] in E. rewrite E. cbn [negb].
  rewrite ctor_iommu_free_pages_run.
  - cbn [w_regs w_pages w_iommu w_mm w_dma w_trace]. unfold pure.
    rewrite pages_union_difference, <- !app_assoc. reflexivity.
  - apply alloc_list_nonzero. exact Hok.
  - right. destruct (ctor_npages pf args - k)%nat eqn:En; [lia | reflexivity].
Qed.

(** Every page is allocated and [nvkm_mm_head] fails. *)
Lemma ctor_iommu_head_failure (pf : platform) (env : ctor_env) (imem : gk20a_instmem)
    (args : nvkm_instobj_args) (w : world) (e : positive) :
  imem_domain imem <> 0 ->
  env_create env = KOk ->
  (forall j : nat, (j < ctor_npages pf args)%nat -> env_alloc_page env j <> 0) ->
  env_mm_head env = KErr e ->
  gk20a_instobj_ctor pf env imem args w =
  Some ((Z.neg e,
         Some (ObjIommu (InstObjIommu zero_instobj (alloc_list env 0 (ctor_npages pf args))))),
        World (w_regs w) (w_pages w) (w_iommu w) (w_mm w) (w_dma w)
              (w_trace w ++ (EvAllocPage <$> alloc_list env 0 (ctor_npages pf args))
                 ++ [EvMmHead (ctor_npages_z pf args) (heap_align pf imem args) (Z.neg e) 0;
                     EvError MsgVirtualSpaceFull]
                 ++ (EvFreePage <$> alloc_list env 0 (ctor_npages pf args)))).
Proof.
  intros Hdom Hcreate Hok Hhead.
  rewrite ctor_dispatch_iommu by exact Hdom.
  unfold gk20a_instobj_ctor_iommu. rewrite Hcreate. unfold bind.
  fold (ctor_npages pf args).
  pose proof (ctor_iommu_alloc_ok env (ctor_npages pf args) [] w Hok) as E.
  cbn [app length] in E. rewrite E. cbn [negb].
  unfold nvkm_mm_head. rewrite Hhead.
  change (negb (Z.neg e =? 0)) with true. cbv iota.
  unfold nvkm_error, emit. cbn [w_regs w_pages w_iommu w_mm w_dma w_trace].
  pose proof (ctor_iommu_free_pages_run (alloc_list env 0 (ctor_npages pf args)) []) as F.
  rewrite app_nil_r in F. rewrite F.
  - cbn [w_regs w_pages w_iommu w_mm w_dma w_trace]. unfold pure.
    rewrite pages_union_difference, <- !app_assoc. reflexivity.
  - apply alloc_list_nonzero. exact Hok.
  - left. reflexivity.
Qed.

Lemma alloc_list_length (env : ctor_env) (i n : nat) : length (alloc_list env i n) = n.
Proof. unfold alloc_list. rewrite length_fmap, length_seq. reflexivity. Qed.

(** Every page is allocated, the range is reserved and [iommu_map] fails
    for page index [k], the first to fail. *)
Lemma ctor_iommu_map_failure (pf : platform) (env : ctor_env) (imem : gk20a_instmem)
    (args : nvkm_instobj_args) (w : world) (k : nat) (e : positive) :
  imem_domain imem <> 0 ->
  env_create env = KOk ->
  (forall j : nat, (j < ctor_npages pf args)%nat -> env_alloc_page env j <> 0) ->
  env_mm_head env = KOk ->
  (k < ctor_npages pf args)%nat ->
  (forall j : nat, (j < k)%nat -> env_iommu_map env j = KOk) ->
  env_iommu_map env k = KErr e ->
  let pgs := alloc_list env 0 (ctor_npages pf args) in
  let off := env_mm_offset env in
  gk20a_instobj_ctor pf env imem args w =
  Some ((Z.neg e, Some (ObjIommu (InstObjIommu zero_instobj pgs))),
        World (w_regs w) (w_pages w)
              (foldl iommu_delete
                     (foldl (iommu_insert pf imem off pgs) (w_iommu w) (seq 0 k))
                     (unwind_addrs pf (iova imem off k) k))
              (w_mm w) (w_dma w)
              (w_trace w ++ (EvAllocPage <$> pgs)
                 ++ [EvMmHead (ctor_npages_z pf args) (heap_align pf imem args) 0 (new_node w)]
                 ++ (map_event pf imem off pgs 0 <$> seq 0 k)
                 ++ [map_event pf imem off pgs (Z.neg e) k;
                     EvError (MsgIommuMappingFailure (Z.neg e))]
                 ++ (EvIommuUnmap <$> unwind_addrs pf (iova imem off k) k)
                 ++ [EvMmFree (new_node w) off (ctor_npages_z pf args)]
                 ++ (EvFreePage <$> pgs))).
Proof.
  intros Hdom Hcreate Hok Hhead Hk Hmap Hfail pgs off.
  rewrite ctor_dispatch_iommu by exact Hdom.
  unfold gk20a_instobj_ctor_iommu. rewrite Hcreate. unfold bind.
  change (Z.to_nat (ctor_npages_z pf args)) with (ctor_npages pf args).
  pose proof (ctor_iommu_alloc_ok env (ctor_npages pf args) [] w Hok) as E.
  cbn [app length] in E. rewrite E. cbn [negb]. fold pgs.
  unfold nvkm_mm_head. rewrite Hhead. fold (new_node w).
  change (negb (0 =? 0)) with false. cbv iota.
  unfold mm_node_get. cbn [w_regs w_pages w_iommu w_mm w_dma w_trace].
  rewrite lookup_insert_eq. cbn [nd_offset]. fold off.
  pose proof (ctor_iommu_map_fail pf env imem off pgs e k (ctor_npages pf args) 0) as F.
  cbn [Nat.add] in F. rewrite F; clear F;
    [| exact Hk | unfold pgs; rewrite alloc_list_length; lia
     | intros j Hj; apply Hmap; lia | exact Hfail].
  change (Z.neg e <? 0) with true. cbv iota.
  unfold nvkm_mm_free. cbn [w_regs w_pages w_iommu w_mm w_dma w_trace].
  rewrite lookup_insert_eq. cbn [nd_offset nd_length].
  pose proof (ctor_iommu_free_pages_run pgs []) as F.
  rewrite app_nil_r in F. rewrite F; clear F.
  - cbn [w_regs w_pages w_iommu w_mm w_dma w_trace]. unfold pure.
    rewrite pages_union_difference, (delete_insert_id _ _ _ (new_node_fresh w)).
    rewrite <- !app_assoc. reflexivity.
  - apply alloc_list_nonzero. exact Hok.
  - left. reflexivity.
Qed.

(** Every sub-step succeeds. *)
Lemma ctor_iommu_success (pf : platform) (env : ctor_env) (imem : gk20a_instmem)
    (args : nvkm_instobj_args) (w : world) :
  imem_domain imem <> 0 ->
  env_create env = KOk ->
  (forall j : nat, (j < ctor_npages pf args)%nat -> env_alloc_page env j <> 0) ->
  env_mm_head env = KOk ->
  (forall j : nat, (j < ctor_npages pf args)%nat -> env_iommu_map env j = KOk) ->
  let pgs := alloc_list env 0 (ctor_npages pf args) in
  let off := env_mm_offset env in
  gk20a_instobj_ctor pf env imem args w =
  Some ((0, Some (iommu_object pf env imem args (new_node w))),
        World (w_regs w) (w_pages w ⊎ list_to_set_disj pgs)
              (foldl (iommu_insert pf imem off pgs) (w_iommu w) (seq 0 (ctor_npages pf args)))
              (<[new_node w := MmNode 1 (tagged_offset imem off) (ctor_npages_z pf args)]>
                 (w_mm w))
              (w_dma w)
              (w_trace w ++ (EvAllocPage <$> pgs)
                 ++ [EvMmHead (ctor_npages_z pf args) (heap_align pf imem args) 0 (new_node w)]
                 ++ (map_event pf imem off pgs 0 <$> seq 0 (ctor_npages pf args)))).
Proof.
  intros Hdom Hcreate Hok Hhead Hmap pgs off.
  rewrite ctor_dispatch_iommu by exact Hdom.
  unfold gk20a_instobj_ctor_iommu. rewrite Hcreate. unfold bind.
  change (Z.to_nat (ctor_npages_z pf args)) with (ctor_npages pf args).
  pose proof (ctor_iommu_alloc_ok env (ctor_npages pf args) [] w Hok) as E.
  cbn [app length] in E. rewrite E. cbn [negb]. fold pgs.
  unfold nvkm_mm_head. rewrite Hhead. fold (new_node w).
  change (negb (0 =? 0)) with false. cbv iota.
  unfold mm_node_get. cbn [w_regs w_pages w_iommu w_mm w_dma w_trace].
  rewrite lookup_insert_eq. cbn [nd_offset]. fold off.
  rewrite (ctor_iommu_map_ok pf env imem off pgs (ctor_npages pf args) 0);
    [| unfold pgs; rewrite alloc_list_length; lia | intros j Hj; apply Hmap; lia].
  change (0 <? 0) with false. cbv iota.
  unfold mm_node_set_offset. cbn [w_regs w_pages w_iommu w_mm w_dma w_trace].
  rewrite lookup_insert_eq, insert_insert_eq. unfold pure.
  change (negb (0 =? 0)) with false. cbv iota.
  rewrite <- !app_assoc. reflexivity.
Qed.

(** ** Which sub-step fails first *)

Lemma first_null_page (f : nat -> Z) (n : nat) :
  (forall j : nat, (j < n)%nat -> f j <> 0) \/
  (exists k : nat, (k < n)%nat /\ (forall j : nat, (j < k)%nat -> f j <> 0) /\ f k = 0).
Proof.
  induction n as [| n [IH | (k & Hk & Hok & Hz)]].
  - left. intros j Hj. lia.
  - destruct (Z.eq_dec (f n) 0) as [Hz | Hnz].
    + right. exists n. split; [lia |]. split; [exact IH | exact Hz].
    + left. intros j Hj. destruct (Nat.eq_dec j n) as [-> | Hne]; [exact Hnz |].
      apply IH. lia.
  - right. exists k. split; [lia |]. split; assumption.
Qed.

Lemma first_failed_map (f : nat -> kret) (n : nat) :
  (forall j : nat, (j < n)%nat -> f j = KOk) \/
  (exists (k : nat) (e : positive),
     (k < n)%nat /\ (forall j : nat, (j < k)%nat -> f j = KOk) /\ f k = KErr e).
Proof.
  induction n as [| n [IH | (k & e & Hk & Hok & Hz)]].
  - left. intros j Hj. lia.
  - destruct (f n) as [| e] eqn:Hn.
    + left. intros j Hj. destruct (Nat.eq_dec j n) as [-> | Hne]; [exact Hn |].
      apply IH. lia.
    + right. exists n, e. split; [lia |]. split; [exact IH | exact Hn].
  - right. exists k, e. split; [lia |]. split; assumption.
Qed.

(** ** Reading the traces of the constructor *)

Lemma omap_fmap_none {A B C : Type} (f : B -> option C) (g : A -> B) (l : list A) :
  (forall x : A, f (g x) = None) -> omap f (g <$> l) = [].
Proof.
  intros H. induction l as [| x l IH]; [reflexivity |].
  cbn [fmap list_fmap omap list_omap]. rewrite H. exact IH.
Qed.

Lemma omap_fmap_some {A B C : Type} (f : B -> option C) (g : A -> B) (h : A -> C)
    (l : list A) :
  Forall (fun x => f (g x) = Some (h x)) l -> omap f (g <$> l) = h <$> l.
Proof.
  induction 1 as [| x l Hx Hl IH]; [reflexivity |].
  cbn [fmap list_fmap omap list_omap]. rewrite Hx. f_equal. exact IH.
Qed.

Lemma count_events_fmap_true {A : Type} (f : event -> bool) (g : A -> event) (l : list A) :
  (forall x : A, f (g x) = true) -> count_events f (g <$> l) = length l.
Proof.
  intros H. unfold count_events. induction l as [| x l IH]; [reflexivity |].
  cbn [fmap list_fmap List.filter]. rewrite H. simpl. f_equal. exact IH.
Qed.

Lemma count_events_fmap_false {A : Type} (f : event -> bool) (g : A -> event) (l : list A) :
  (forall x : A, f (g x) = false) -> count_events f (g <$> l) = 0%nat.
Proof.
  intros H. unfold count_events. induction l as [| x l IH]; [reflexivity |].
  cbn [fmap list_fmap List.filter]. rewrite H. exact IH.
Qed.

Lemma allocated_pages_alloc (ps : list Z) :
  Forall (fun p => p <> 0) ps -> allocated_pages (EvAllocPage <$> ps) = ps.
Proof.
  intros H. unfold allocated_pages. rewrite <- (list_fmap_id ps) at 2.
  apply omap_fmap_some. eapply List.Forall_impl; [| exact H].
  intros p Hp. simpl. apply Z.eqb_neq in Hp. rewrite Hp. reflexivity.
Qed.

Lemma freed_pages_free (ps : list Z) : freed_pages (EvFreePage <$> ps) = ps.
Proof.
  unfold freed_pages. rewrite <- (list_fmap_id ps) at 2.
  apply omap_fmap_some. apply Forall_true. reflexivity.
Qed.

Lemma unmap_addrs_unmap (l : list Z) : unmap_addrs (EvIommuUnmap <$> l) = l.
Proof.
  unfold unmap_addrs. rewrite <- (list_fmap_id l) at 2.
  apply omap_fmap_some. apply Forall_true. reflexivity.
Qed.

Lemma map_addrs_map (pf : platform) (imem : gk20a_instmem) (r_offset : Z) (pgs : list Z)
    (js : list nat) :
  map_addrs (map_event pf imem r_offset pgs 0 <$> js) = iova imem r_offset <$> js.
Proof.
  unfold map_addrs. apply omap_fmap_some. apply Forall_true. reflexivity.
Qed.

Lemma allocated_pages_app (a b : list event) :
  allocated_pages (a ++ b) = allocated_pages a ++ allocated_pages b.
Proof. apply omap_app. Qed.

Lemma allocated_pages_other {A : Type} (g : A -> event) (l : list A) :
  (forall x : A, allocated_pages [g x] = []) -> allocated_pages (g <$> l) = [].
Proof.
  intros H. apply omap_fmap_none. intros x. specialize (H x).
  unfold allocated_pages in H. cbn [omap list_omap] in H.
  match type of H with
  | match ?c with _ => _ end = _ => destruct c; [discriminate | reflexivity]
  end.
Qed.

Lemma freed_pages_app (a b : list event) :
  freed_pages (a ++ b) = freed_pages a ++ freed_pages b.
Proof. apply omap_app. Qed.

Lemma freed_pages_other {A : Type} (g : A -> event) (l : list A) :
  (forall x : A, freed_pages [g x] = []) -> freed_pages (g <$> l) = [].
Proof.
  intros H. apply omap_fmap_none. intros x. specialize (H x).
  unfold freed_pages in H. cbn [omap list_omap] in H.
  match type of H with
  | match ?c with _ => _ end = _ => destruct c; [discriminate | reflexivity]
  end.
Qed.

Lemma map_addrs_app (a b : list event) :
  map_addrs (a ++ b) = map_addrs a ++ map_addrs b.
Proof. apply omap_app. Qed.

Lemma map_addrs_other {A : Type} (g : A -> event) (l : list A) :
  (forall x : A, map_addrs [g x] = []) -> map_addrs (g <$> l) = [].
Proof.
  intros H. apply omap_fmap_none. intros x. specialize (H x).
  unfold map_addrs in H. cbn [omap list_omap] in H.
  match type of H with
  | match ?c with _ => _ end = _ => destruct c; [discriminate | reflexivity]
  end.
Qed.

Lemma unmap_addrs_app (a b : list event) :
  unmap_addrs (a ++ b) = unmap_addrs a ++ unmap_addrs b.
Proof. apply omap_app. Qed.

Lemma unmap_addrs_other {A : Type} (g : A -> event) (l : list A) :
  (forall x : A, unmap_addrs [g x] = []) -> unmap_addrs (g <$> l) = [].
Proof.
  intros H. apply omap_fmap_none. intros x. specialize (H x).
  unfold unmap_addrs in H. cbn [omap list_omap] in H.
  match type of H with
  | match ?c with _ => _ end = _ => destruct c; [discriminate | reflexivity]
  end.
Qed.

Lemma reserved_nodes_app (a b : list event) :
  reserved_nodes (a ++ b) = reserved_nodes a ++ reserved_nodes b.
Proof. apply omap_app. Qed.

Lemma reserved_nodes_other {A : Type} (g : A -> event) (l : list A) :
  (forall x : A, reserved_nodes [g x] = []) -> reserved_nodes (g <$> l) = [].
Proof.
  intros H. apply omap_fmap_none. intros x. specialize (H x).
  unfold reserved_nodes in H. cbn [omap list_omap] in H.
  match type of H with
  | match ?c with _ => _ end = _ => destruct c; [discriminate | reflexivity]
  end.
Qed.

Lemma released_nodes_app (a b : list event) :
  released_nodes (a ++ b) = released_nodes a ++ released_nodes b.
Proof. apply omap_app. Qed.

Lemma released_nodes_other {A : Type} (g : A -> event) (l : list A) :
  (forall x : A, released_nodes [g x] = []) -> released_nodes (g <$> l) = [].
Proof.
  intros H. apply omap_fmap_none. intros x. specialize (H x).
  unfold released_nodes in H. cbn [omap list_omap] in H.
  match type of H with
  | match ?c with _ => _ end = _ => destruct c; [discriminate | reflexivity]
  end.
Qed.

(** Rewrites the summaries of a trace given as a concatenation of the
    calls of the loops. *)
Ltac read_trace :=
  repeat first
    [ rewrite allocated_pages_app | rewrite freed_pages_app | rewrite map_addrs_app
    | rewrite unmap_addrs_app | rewrite reserved_nodes_app | rewrite released_nodes_app
    | rewrite freed_pages_free | rewrite unmap_addrs_unmap | rewrite map_addrs_map
    | rewrite allocated_pages_alloc by assumption
    | rewrite allocated_pages_other by (intros; reflexivity)
    | rewrite freed_pages_other by (intros; reflexivity)
    | rewrite map_addrs_other by (intros; reflexivity)
    | rewrite unmap_addrs_other by (intros; reflexivity)
    | rewrite reserved_nodes_other by (intros; reflexivity)
    | rewrite released_nodes_other by (intros; reflexivity) ].

(** ** The remaining paths of the constructor *)

Lemma ctor_create_failure (pf : platform) (env : ctor_env) (imem : gk20a_instmem)
    (args : nvkm_instobj_args) (w : world) (e : positive) :
  env_create env = KErr e ->
  gk20a_instobj_ctor pf env imem args w = Some ((Z.neg e, None), w).
Proof.
  intros Hcreate. unfold gk20a_instobj_ctor, bind.
  destruct (negb (imem_domain imem =? 0));
    [unfold gk20a_instobj_ctor_iommu | unfold gk20a_instobj_ctor_dma];
    rewrite Hcreate; unfold pure; reflexivity.
Qed.

Lemma ctor_dma_failure (pf : platform) (env : ctor_env) (imem : gk20a_instmem)
    (args : nvkm_instobj_args) (w : world) :
  imem_domain imem = 0 ->
  env_create env = KOk ->
  env_dma_cpuaddr env = 0 ->
  gk20a_instobj_ctor pf env imem args w =
  Some ((- ENOMEM,
         Some (ObjDma (InstObjDma zero_instobj 0 (env_dma_handle env) (MmNode 0 0 0)))),
        World (w_regs w) (w_pages w) (w_iommu w) (w_mm w) (w_dma w)
              (w_trace w ++ [EvDmaAlloc (dma_bytes pf args) 0 (env_dma_handle env);
                             EvError MsgCannotAllocateDma])).
Proof.
  intros Hdom Hcreate Hcpu. rewrite ctor_dispatch_dma by exact Hdom.
  unfold gk20a_instobj_ctor_dma. rewrite Hcreate. unfold bind, dma_alloc_attrs.
  rewrite Hcpu. cbn [Z.eqb]. unfold nvkm_error, emit, pure.
  cbn [w_regs w_pages w_iommu w_mm w_dma w_trace].
  rewrite <- app_assoc. reflexivity.
Qed.

Lemma ctor_dma_success (pf : platform) (env : ctor_env) (imem : gk20a_instmem)
    (args : nvkm_instobj_args) (w : world) :
  imem_domain imem = 0 ->
  env_create env = KOk ->
  env_dma_cpuaddr env <> 0 ->
  gk20a_instobj_ctor pf env imem args w =
  Some ((0, Some (dma_object pf env args)),
        World (w_regs w) (w_pages w) (w_iommu w) (w_mm w)
              (w_dma w ⊎ {[+ (env_dma_cpuaddr env, env_dma_handle env, dma_bytes pf args) +]})
              (w_trace w ++ [EvDmaAlloc (dma_bytes pf args) (env_dma_cpuaddr env)
                                        (env_dma_handle env)]
                 ++ (if misaligned pf env args
                     then [EvWarn (MsgNotAligned (env_dma_handle env) (ctor_align pf args))]
                     else []))).
Proof.
  intros Hdom Hcreate Hcpu. rewrite ctor_dispatch_dma by exact Hdom.
  unfold gk20a_instobj_ctor_dma. rewrite Hcreate. unfold bind, dma_alloc_attrs.
  apply Z.eqb_neq in Hcpu. rewrite Hcpu. fold (dma_bytes pf args).
  fold (misaligned pf env args).
  destruct (misaligned pf env args); unfold nvkm_warn, emit, pure;
    cbn [w_regs w_pages w_iommu w_mm w_dma w_trace];
    change (negb (0 =? 0)) with false; cbv iota.
  - rewrite <- app_assoc. reflexivity.
  - rewrite app_nil_r. reflexivity.
Qed.

(** X15: where the IOMMU page is the kernel page, a failing constructor
    leaves nothing.  For every call of [gk20a_instobj_ctor] in which a
    sub-step fails (creating the object, the DMA allocation, a page
    allocation, the range reservation or an IOMMU mapping), with
    [imem->iommu_pgshift = PAGE_SHIFT] below 32 and a reserved range that
    maps nothing yet, the call returns a negative error code, the pages it
    freed are the pages it allocated, the addresses it unmapped are the
    addresses it mapped (last one first), the node it released is the node
    it reserved, and pages, IOMMU mappings, reserved ranges and DMA buffers
    are as before the call. *)
Theorem ctor_failure_leaves_nothing (pf : platform) (env : ctor_env)
    (imem : gk20a_instmem) (args : nvkm_instobj_args) (w : world) :
  platform_ok pf -> PAGE_SHIFT pf < 32 ->
  (imem_domain imem <> 0 -> imem_iommu_pgshift imem = PAGE_SHIFT pf) ->
  range_unmapped imem env (ctor_npages pf args) w ->
  substep_fails pf env imem args ->
  exists ret node w' tr,
    gk20a_instobj_ctor pf env imem args w = Some ((ret, node), w') /\
    ret < 0 /\
    w_trace w' = w_trace w ++ tr /\
    freed_pages tr = allocated_pages tr /\
    unmap_addrs tr = reverse (map_addrs tr) /\
    released_nodes tr = reserved_nodes tr /\
    resources w' = resources w.
Proof.
  intros Hpf _ Hshift Hfresh Hfails.
  destruct (env_create env) as [| e] eqn:Hcreate.
  2:{ exists (Z.neg e), None, w, []. rewrite (ctor_create_failure pf env imem args w e Hcreate).
      rewrite app_nil_r. split; [reflexivity |]. split; [lia |]. repeat split. }
  destruct Hfails as [Hc | [[Hdom Hcpu] | [Hdom Hsub]]]; [congruence | |].
  - eexists _, _, _, _. rewrite (ctor_dma_failure pf env imem args w Hdom Hcreate Hcpu).
    split; [reflexivity |]. split; [unfold ENOMEM; lia |].
    cbn [w_trace]. split; [reflexivity |]. repeat split.
  - specialize (Hshift Hdom).
    destruct (first_null_page (env_alloc_page env) (ctor_npages pf args))
      as [Hpages | (k & Hk & Hpages & Hnull)].
    2:{ eexists _, _, _, _.
        rewrite (ctor_iommu_alloc_failure pf env imem args w k Hdom Hcreate Hk Hpages Hnull).
        split; [reflexivity |]. split; [unfold ENOMEM; lia |].
        cbn [w_trace]. split; [reflexivity |].
        pose proof (alloc_list_nonzero env 0 k Hpages) as Hnz.
        read_trace. cbn. rewrite !app_nil_r. repeat split. }
    pose proof (alloc_list_nonzero env 0 (ctor_npages pf args) Hpages) as Hnz.
    destruct (env_mm_head env) as [| e] eqn:Hhead.
    2:{ eexists _, _, _, _.
        rewrite (ctor_iommu_head_failure pf env imem args w e Hdom Hcreate Hpages Hhead).
        split; [reflexivity |]. split; [lia |].
        cbn [w_trace]. split; [reflexivity |].
        read_trace. cbn. rewrite !app_nil_r. repeat split. }
    destruct (first_failed_map (env_iommu_map env) (ctor_npages pf args))
      as [Hmaps | (k & e & Hk & Hmaps & Hfailed)].
    { exfalso. destruct Hsub as [(i & Hi & Hz) | [Hh | (i & Hi & Hm)]].
      - apply (Hpages i Hi Hz).
      - apply Hh. exact Hhead.
      - apply Hm, Hmaps, Hi. }
    eexists _, _, _, _.
    rewrite (ctor_iommu_map_failure pf env imem args w k e
               Hdom Hcreate Hpages Hhead Hk Hmaps Hfailed).
    rewrite (unwind_addrs_iova pf imem (env_mm_offset env) k Hpf Hshift).
    rewrite unmap_all_restores.
    2:{ intros j Hj. apply Hfresh. apply elem_of_seq in Hj. lia. }
    split; [reflexivity |]. split; [lia |].
    cbn [w_trace]. split; [reflexivity |].
    read_trace. cbn. rewrite !app_nil_r. rewrite fmap_reverse.
    repeat split.
Qed.

Lemma ctor_failure_leaves_nothing_witness :
  exists ret node w' tr,
    gk20a_instobj_ctor tegra_k1 (env_map_fail 2) imem_iommu args_4_pages empty_world
      = Some ((ret, node), w') /\
    ret < 0 /\
    w_trace w' = w_trace empty_world ++ tr /\
    freed_pages tr = allocated_pages tr /\
    unmap_addrs tr = reverse (map_addrs tr) /\
    released_nodes tr = reserved_nodes tr /\
    resources w' = resources empty_world.
Proof.
  apply ctor_failure_leaves_nothing.
  - unfold platform_ok. simpl. lia.
  - simpl. lia.
  - intros _. reflexivity.
  - intros i _. apply lookup_empty.
  - right. right. split; [discriminate |]. right. right.
    exists 2%nat. split; [vm_compute; lia | discriminate].
Defined.

(** C1, at the failing input: a kernel with 64 KiB pages, an IOMMU with
    4 KiB pages, a request of two pages whose second [iommu_map] call
    fails.  The mapping loop has mapped page 0 at [0x100 << 12]; the
    unwinding loop steps back by [PAGE_SIZE] from the address that failed
    and unmaps 0xf1000, where nothing is mapped; both pages are freed and
    the error is returned.  The domain still maps 0x100000 to the freed
    page 0x1000: the call leaves partial state. *)
Theorem ctor_failure_leaves_mapping :
  exists node w',
    gk20a_instobj_ctor arm64_64k (env_map_fail 1) imem_iommu args_2_large_pages empty_world
      = Some ((Z.neg 12, node), w') /\
    map_addrs (w_trace w') = [0x100000] /\
    unmap_addrs (w_trace w') = [0xf1000] /\
    unmap_addrs (w_trace w') <> reverse (map_addrs (w_trace w')) /\
    freed_pages (w_trace w') = [0x1000; 0x2000] /\
    w_iommu w' !! 0x100000 = Some 0x1000 /\
    resources w' <> resources empty_world.
Proof.
  eexists _, _. split; [vm_compute; reflexivity |].
  split; [reflexivity |]. split; [reflexivity |]. split; [discriminate |].
  split; [reflexivity |]. split; [vm_compute; reflexivity |].
  intros H. apply (f_equal (fun t => t.1.1.2 !! 0x100000)) in H.
  vm_compute in H. discriminate H.
Qed.

Ltac count_trace :=
  repeat first
    [ rewrite count_events_app
    | rewrite count_events_fmap_true by (intros; reflexivity)
    | rewrite count_events_fmap_false by (intros; reflexivity) ].

Lemma unwind_addrs_length (pf : platform) (k : nat) :
  forall offset : Z, length (unwind_addrs pf offset k) = k.
Proof.
  induction k as [| k IH]; intros offset; [reflexivity |].
  cbn [unwind_addrs length]. rewrite IH. reflexivity.
Qed.

(** C2, as the code has it: when the [iommu_map] call for page index [k]
    (the [k+1]-th call) fails during a constructor call of the IOMMU
    backend, the call returns the error, exactly [k] calls of
    [iommu_unmap] have been made, all of the [npages] pages allocated have
    been freed and the reserved range has been released: no page and no
    reserved range is outstanding.  Where the IOMMU page is the kernel
    page (a shift below 32) and the reserved range mapped nothing before,
    the [k] addresses unmapped are the [k] addresses mapped (last one
    first) and no mapping is outstanding either. *)
Theorem map_failure_unwinds (pf : platform) (env : ctor_env) (imem : gk20a_instmem)
    (args : nvkm_instobj_args) (w : world) (k : nat) (e : positive) :
  imem_domain imem <> 0 ->
  map_fails_at pf env args k e ->
  exists node w' tr,
    gk20a_instobj_ctor pf env imem args w = Some ((Z.neg e, node), w') /\
    w_trace w' = w_trace w ++ tr /\
    count_events is_unmap tr = k /\
    count_events is_free_page tr = ctor_npages pf args /\
    freed_pages tr = allocated_pages tr /\
    released_nodes tr = reserved_nodes tr /\
    w_pages w' = w_pages w /\ w_mm w' = w_mm w /\ w_dma w' = w_dma w /\
    (platform_ok pf -> PAGE_SHIFT pf < 32 ->
     imem_iommu_pgshift imem = PAGE_SHIFT pf ->
     range_unmapped imem env (ctor_npages pf args) w ->
     unmap_addrs tr = reverse (map_addrs tr) /\
     w_iommu w' = w_iommu w /\
     resources w' = resources w).
Proof.
  intros Hdom (Hcreate & Hpages & Hhead & Hk & Hmaps & Hfailed).
  pose proof (alloc_list_nonzero env 0 (ctor_npages pf args) Hpages) as Hnz.
  eexists _, _, _.
  rewrite (ctor_iommu_map_failure pf env imem args w k e
             Hdom Hcreate Hpages Hhead Hk Hmaps Hfailed).
  split; [reflexivity |]. cbn [w_trace w_pages w_mm w_dma w_iommu].
  split; [reflexivity |].
  split; [count_trace; rewrite unwind_addrs_length; unfold count_events; simpl; lia |].
  split; [count_trace; rewrite alloc_list_length; unfold count_events; simpl; lia |].
  split; [read_trace; cbn; rewrite ?app_nil_r; reflexivity |].
  split; [read_trace; cbn; rewrite ?app_nil_r; reflexivity |].
  split; [reflexivity |]. split; [reflexivity |]. split; [reflexivity |].
  intros Hpf _ Hshift Hfresh.
  rewrite (unwind_addrs_iova pf imem (env_mm_offset env) k Hpf Hshift).
  assert (foldl iommu_delete
            (foldl (iommu_insert pf imem (env_mm_offset env)
                                 (alloc_list env 0 (ctor_npages pf args)))
                   (w_iommu w) (seq 0 k))
            (iova imem (env_mm_offset env) <$> reverse (seq 0 k)) = w_iommu w) as Hrestored.
  { apply unmap_all_restores. intros j Hj. apply Hfresh. apply elem_of_seq in Hj. lia. }
  split; [| split].
  - read_trace. cbn. rewrite ?app_nil_r. rewrite fmap_reverse. reflexivity.
  - exact Hrestored.
  - unfold resources. cbn [w_pages w_iommu w_mm w_dma]. rewrite Hrestored. reflexivity.
Qed.

Lemma map_failure_unwinds_witness :
  exists node w' tr,
    gk20a_instobj_ctor tegra_k1 (env_map_fail 2) imem_iommu args_4_pages empty_world
      = Some ((Z.neg 12, node), w') /\
    w_trace w' = w_trace empty_world ++ tr /\
    count_events is_unmap tr = 2%nat /\
    count_events is_free_page tr = ctor_npages tegra_k1 args_4_pages /\
    freed_pages tr = allocated_pages tr /\
    released_nodes tr = reserved_nodes tr /\
    w_pages w' = w_pages empty_world /\
    w_mm w' = w_mm empty_world /\
    w_dma w' = w_dma empty_world /\
    unmap_addrs tr = reverse (map_addrs tr) /\
    w_iommu w' = w_iommu empty_world /\
    resources w' = resources empty_world.
Proof.
  destruct (map_failure_unwinds tegra_k1 (env_map_fail 2) imem_iommu args_4_pages
              empty_world 2 12)
    as (node & w' & tr & Hrun & Htr & Hunmap & Hfree & Hpages & Hnodes
        & Hp & Hmm & Hdma & Hsame).
  - discriminate.
  - unfold map_fails_at. split; [reflexivity |]. split.
    + intros j _. simpl. lia.
    + split; [reflexivity |]. split; [vm_compute; lia |]. split; [| reflexivity].
      intros j Hj. simpl. destruct j as [| [| j]]; [reflexivity | reflexivity | lia].
  - destruct Hsame as (Haddrs & Hiommu & Hres).
    + unfold platform_ok. simpl. lia.
    + simpl. lia.
    + reflexivity.
    + intros i _. apply lookup_empty.
    + exists node, w', tr. repeat split; assumption.
Defined.

(** C2 as stated fails: in the 4-page request whose mapping fails at page
    index 2 the constructor returns an error having unmapped 2 pages and
    freed 4, not 2. *)
Lemma four_pages_freed_not_two :
  exists ret node w',
    gk20a_instobj_ctor tegra_k1 (env_map_fail 2) imem_iommu args_4_pages empty_world
      = Some ((ret, node), w') /\
    ret < 0 /\
    count_events is_unmap (w_trace w') = 2%nat /\
    count_events is_free_page (w_trace w') = 4%nat /\
    count_events is_free_page (w_trace w') <> 2%nat /\
    resources w' = resources empty_world.
Proof.
  eexists _, _, _. split; [vm_compute; reflexivity |].
  split; [reflexivity |]. split; [reflexivity |]. split; [reflexivity |].
  split; [discriminate | reflexivity].
Qed.

(** ** The DMA backend *)

(** C9: in every constructor call of the DMA backend (no IOMMU domain, the
    object itself created), when [dma_alloc_attrs] returns a buffer the
    constructor returns 0 and the GPU offset of the object is the bus
    address, whether or not the bus address has the requested alignment;
    the only trace of a mismatch is one warning.  The constructor returns
    an error, [-ENOMEM], if and only if [dma_alloc_attrs] returns NULL. *)
Theorem ctor_dma_accepts_misalignment (pf : platform) (env : ctor_env)
    (imem : gk20a_instmem) (args : nvkm_instobj_args) (w : world) :
  imem_domain imem = 0 ->
  env_create env = KOk ->
  exists ret o w' tr,
    gk20a_instobj_ctor pf env imem args w = Some ((ret, Some o), w') /\
    w_trace w' = w_trace w ++ tr /\
    obj_backend o = ContiguousHost /\
    (env_dma_cpuaddr env <> 0 ->
     ret = 0 /\
     mem_offset (_mem (obj_base o)) = env_dma_handle env /\
     base_addr (obj_base o) = env_dma_handle env /\
     tr = EvDmaAlloc (dma_bytes pf args) (env_dma_cpuaddr env) (env_dma_handle env)
          :: (if misaligned pf env args
              then [EvWarn (MsgNotAligned (env_dma_handle env) (ctor_align pf args))]
              else [])) /\
    (ret <> 0 <-> env_dma_cpuaddr env = 0) /\
    (ret = - ENOMEM <-> env_dma_cpuaddr env = 0).
Proof.
  intros Hdom Hcreate.
  destruct (Z.eq_dec (env_dma_cpuaddr env) 0) as [Hcpu | Hcpu].
  - eexists _, _, _, _. rewrite (ctor_dma_failure pf env imem args w Hdom Hcreate Hcpu).
    split; [reflexivity |]. cbn [w_trace]. split; [reflexivity |].
    split; [reflexivity |]. split; [intros Hne; contradiction |].
    unfold ENOMEM. split; split; intros _; (exact Hcpu || lia).
  - eexists _, _, _, _. rewrite (ctor_dma_success pf env imem args w Hdom Hcreate Hcpu).
    split; [reflexivity |]. cbn [w_trace]. split; [reflexivity |].
    split; [reflexivity |]. split; [intros _; repeat split |].
    unfold ENOMEM. split; split; intros H; (contradiction || lia).
Qed.

Lemma ctor_dma_accepts_misalignment_witness :
  exists ret o w' tr,
    gk20a_instobj_ctor tegra_k1 (env_dma_at 0x80000800) imem_dma args_1_page empty_world
      = Some ((ret, Some o), w') /\
    w_trace w' = w_trace empty_world ++ tr /\
    obj_backend o = ContiguousHost /\
    (env_dma_cpuaddr (env_dma_at 0x80000800) <> 0 ->
     ret = 0 /\
     mem_offset (_mem (obj_base o)) = env_dma_handle (env_dma_at 0x80000800) /\
     base_addr (obj_base o) = env_dma_handle (env_dma_at 0x80000800) /\
     tr = EvDmaAlloc (dma_bytes tegra_k1 args_1_page)
                     (env_dma_cpuaddr (env_dma_at 0x80000800))
                     (env_dma_handle (env_dma_at 0x80000800))
          :: (if misaligned tegra_k1 (env_dma_at 0x80000800) args_1_page
              then [EvWarn (MsgNotAligned (env_dma_handle (env_dma_at 0x80000800))
                                          (ctor_align tegra_k1 args_1_page))]
              else [])) /\
    (ret <> 0 <-> env_dma_cpuaddr (env_dma_at 0x80000800) = 0) /\
    (ret = - ENOMEM <-> env_dma_cpuaddr (env_dma_at 0x80000800) = 0).
Proof.
  apply ctor_dma_accepts_misalignment; reflexivity.
Defined.

(** The bus address 0x80000800 misses the 4 KiB alignment of the request. *)
Lemma witness_is_misaligned :
  misaligned tegra_k1 (env_dma_at 0x80000800) args_1_page = true.
Proof. vm_compute. reflexivity. Qed.

(** ** What a constructor returns, whatever the collaborators answer *)

(** Walks through the binds of a run [H : m w = Some _], case by case. *)
Ltac walk H :=
  repeat (unfold bind, pure in H; cbv beta in H;
          match type of H with
          | match ?c with KOk => _ | KErr _ => _ end _ = _ => destruct c
          | match ?c with Some _ => _ | None => _ end = _ =>
              destruct c as [[? ?] |]; [| discriminate H]
          | (let (_, _) := ?p in _) = _ => destruct p
          | (let (_, _) := ?p in _) _ = _ => destruct p
          | (if ?b then _ else _) = _ => destruct b eqn:?
          | (if ?b then _ else _) _ = _ => destruct b eqn:?
          end).

Lemma ctor_iommu_result (pf : platform) (env : ctor_env) (imem : gk20a_instmem)
    (npages align : Z) (w : world) (ret : Z) (o : object) (w' : world) :
  gk20a_instobj_ctor_iommu pf env imem npages align w = Some ((ret, Some o), w') ->
  exists node, o = ObjIommu node /\ (ret <> 0 -> iommu_base node = zero_instobj).
Proof.
  intros H. unfold gk20a_instobj_ctor_iommu in H. walk H; try discriminate H;
    injection H as <- <- <-; eexists; (split; [reflexivity |]);
    intros Hret; try reflexivity.
  exfalso. apply Hret. reflexivity.
Qed.

Lemma ctor_dma_result (pf : platform) (env : ctor_env) (imem : gk20a_instmem)
    (npages align : Z) (w : world) (ret : Z) (o : object) (w' : world) :
  gk20a_instobj_ctor_dma pf env imem npages align w = Some ((ret, Some o), w') ->
  exists node, o = ObjDma node /\ (ret <> 0 -> cpuaddr node = 0).
Proof.
  intros H. unfold gk20a_instobj_ctor_dma in H. walk H; try discriminate H;
    injection H as <- <- <-; eexists; (split; [reflexivity |]);
    intros Hret.
  - cbn [cpuaddr]. apply Z.eqb_eq. assumption.
  - exfalso. apply Hret. reflexivity.
Qed.

Lemma ctor_backend (pf : platform) (env : ctor_env) (imem : gk20a_instmem)
    (args : nvkm_instobj_args) (w : world) (ret : Z) (o : object) (w' : world) :
  gk20a_instobj_ctor pf env imem args w = Some ((ret, Some o), w') ->
  obj_backend o = if imem_domain imem =? 0 then ContiguousHost else IommuMapped.
Proof.
  intros H. destruct (Z.eqb_spec (imem_domain imem) 0) as [Hdom | Hdom].
  - rewrite ctor_dispatch_dma in H by exact Hdom.
    destruct (gk20a_instobj_ctor_dma _ _ _ _ _ _) as [[[ret1 o1] w1] |] eqn:E;
      [| discriminate H].
    destruct o1 as [o1 |];
      [| destruct (negb (ret1 =? 0)); simpl in H; discriminate H].
    destruct (ctor_dma_result _ _ _ _ _ _ _ _ _ E) as (node & -> & _).
    destruct (negb (ret1 =? 0)); injection H as _ <- _; reflexivity.
  - rewrite ctor_dispatch_iommu in H by exact Hdom.
    destruct (gk20a_instobj_ctor_iommu _ _ _ _ _ _) as [[[ret1 o1] w1] |] eqn:E;
      [| discriminate H].
    destruct o1 as [o1 |];
      [| destruct (negb (ret1 =? 0)); simpl in H; discriminate H].
    destruct (ctor_iommu_result _ _ _ _ _ _ _ _ _ E) as (node & -> & _).
    destruct (negb (ret1 =? 0)); injection H as _ <- _; reflexivity.
Qed.

(** After a constructor of the IOMMU backend has failed, [node->mem] of
    the object it leaves is still NULL. *)
Lemma ctor_iommu_failed_mem (pf : platform) (env : ctor_env) (imem : gk20a_instmem)
    (args : nvkm_instobj_args) (w : world) (ret : Z) (o : object) (w' : world) :
  imem_domain imem <> 0 ->
  gk20a_instobj_ctor pf env imem args w = Some ((ret, Some o), w') ->
  ret <> 0 ->
  exists node, o = ObjIommu node /\ mem (iommu_base node) = false.
Proof.
  intros Hdom H Hret. rewrite ctor_dispatch_iommu in H by exact Hdom.
  destruct (gk20a_instobj_ctor_iommu _ _ _ _ _ _) as [[[ret1 o1] w1] |] eqn:E;
    [| discriminate H].
  destruct o1 as [o1 |];
    [| destruct (negb (ret1 =? 0)); simpl in H; discriminate H].
  destruct (ctor_iommu_result _ _ _ _ _ _ _ _ _ E) as (node & -> & Hzero).
  destruct (negb (ret1 =? 0)) eqn:Hz.
  - injection H as -> <- _. exists node. split; [reflexivity |].
    rewrite Hzero by exact Hret. reflexivity.
  - injection H as <- _ _. contradiction Hret. reflexivity.
Qed.

(** After a constructor of the DMA backend has failed, [node->cpuaddr] of
    the object it leaves is NULL. *)
Lemma ctor_dma_failed_cpuaddr (pf : platform) (env : ctor_env) (imem : gk20a_instmem)
    (args : nvkm_instobj_args) (w : world) (ret : Z) (o : object) (w' : world) :
  imem_domain imem = 0 ->
  gk20a_instobj_ctor pf env imem args w = Some ((ret, Some o), w') ->
  ret <> 0 ->
  exists node, o = ObjDma node /\ cpuaddr node = 0.
Proof.
  intros Hdom H Hret. rewrite ctor_dispatch_dma in H by exact Hdom.
  destruct (gk20a_instobj_ctor_dma _ _ _ _ _ _) as [[[ret1 o1] w1] |] eqn:E;
    [| discriminate H].
  destruct o1 as [o1 |];
    [| destruct (negb (ret1 =? 0)); simpl in H; discriminate H].
  destruct (ctor_dma_result _ _ _ _ _ _ _ _ _ E) as (node & -> & Hzero).
  destruct (negb (ret1 =? 0)) eqn:Hz.
  - injection H as -> <- _. exists node. split; [reflexivity |].
    apply Hzero. exact Hret.
  - injection H as <- _ _. contradiction Hret. reflexivity.
Qed.

(** ** Backend selection *)

Lemma instmem_ctor_domain (create : kret) (device : nvkm_device) (ret : Z)
    (imem : gk20a_instmem) :
  gk20a_instmem_ctor create device = (ret, Some imem) ->
  ret = 0 /\ imem_domain imem = dev_iommu_domain device.
Proof.
  unfold gk20a_instmem_ctor. destruct create as [| e]; [| discriminate].
  destruct (Z.eqb_spec (dev_iommu_domain device) 0) as [E | E]; cbn [negb];
    intros H; injection H as <- <-; cbn [imem_domain]; auto.
Qed.

Lemma imem_step_domain (a b : gk20a_instmem) :
  imem_step a b -> imem_domain b = imem_domain a.
Proof.
  intros [imem o offset w data imem' w' H | imem o offset data w imem' w' H | imem].
  - destruct (mem (obj_base o)) eqn:Hmem.
    + rewrite rd32_run in H by exact Hmem. injection H as _ <- _.
      apply repoint_imem_domain.
    + unfold gk20a_instobj_rd32, node_mem, bind in H. rewrite Hmem in H. discriminate H.
  - destruct (mem (obj_base o)) eqn:Hmem.
    + rewrite wr32_run in H by exact Hmem. injection H as <- _.
      apply repoint_imem_domain.
    + unfold gk20a_instobj_wr32, node_mem, bind in H. rewrite Hmem in H. discriminate H.
  - reflexivity.
Qed.

Lemma imem_steps_domain (a b : gk20a_instmem) :
  rtc imem_step a b -> imem_domain b = imem_domain a.
Proof.
  induction 1 as [| a b c Hab _ IH]; [reflexivity |].
  rewrite IH. apply imem_step_domain. exact Hab.
Qed.

(** C6: [gk20a_instmem_ctor] copies the IOMMU domain of the device into
    [imem->domain]; no access and no fini changes it, and the constructor
    and the destructor of an object cannot.  At any later time the
    constructor builds an IOMMU object if and only if the device had an
    IOMMU domain at subdev construction and a DMA object otherwise, and
    the destructor, at any time after that, runs the destructor of the
    backend that built the object. *)
Theorem backend_fixed_at_construction (pf : platform) (create : kret)
    (device : nvkm_device) (ret0 : Z) (imem0 imem imem' : gk20a_instmem)
    (env : ctor_env) (args : nvkm_instobj_args) (w : world) (ret : Z) (o : object)
    (w1 : world) :
  gk20a_instmem_ctor create device = (ret0, Some imem0) ->
  rtc imem_step imem0 imem ->
  rtc imem_step imem imem' ->
  gk20a_instobj_ctor pf env imem args w = Some ((ret, Some o), w1) ->
  imem_domain imem = dev_iommu_domain device /\
  imem_domain imem' = dev_iommu_domain device /\
  (obj_backend o = IommuMapped <-> dev_iommu_domain device <> 0) /\
  (obj_backend o = ContiguousHost <-> dev_iommu_domain device = 0) /\
  forall w2 : world,
    gk20a_instobj_dtor pf imem' o w2 =
    bind (match o with
          | ObjIommu node => gk20a_instobj_dtor_iommu imem' node
          | ObjDma node => gk20a_instobj_dtor_dma pf imem' node
          end)
         (fun _ => nvkm_instobj_destroy) w2.
Proof.
  intros Hctor Hsteps Hsteps' Hobj.
  destruct (instmem_ctor_domain create device ret0 imem0 Hctor) as [_ Hdom0].
  pose proof (imem_steps_domain imem0 imem Hsteps) as Hdom.
  pose proof (imem_steps_domain imem imem' Hsteps') as Hdom'.
  rewrite Hdom0 in Hdom. rewrite Hdom in Hdom'.
  pose proof (ctor_backend pf env imem args w ret o w1 Hobj) as Hback.
  rewrite Hdom in Hback.
  split; [exact Hdom |]. split; [exact Hdom' |].
  destruct (Z.eqb_spec (dev_iommu_domain device) 0) as [E | E].
  - split; [split; [rewrite Hback; discriminate | contradiction] |].
    split; [split; [intros _; exact E | intros _; exact Hback] |].
    intros w2. unfold gk20a_instobj_dtor. rewrite Hdom', E. cbn [Z.eqb negb].
    destruct o; [reflexivity | discriminate Hback].
  - split; [split; [intros _; exact E | intros _; exact Hback] |].
    split; [split; [rewrite Hback; discriminate | contradiction] |].
    intros w2. unfold gk20a_instobj_dtor. rewrite Hdom'.
    apply Z.eqb_neq in E. rewrite E. cbn [negb].
    destruct o; [discriminate Hback | reflexivity].
Qed.

Lemma backend_fixed_at_construction_witness :
  imem_domain (gk20a_instmem_fini imem_iommu) = dev_iommu_domain device_iommu /\
  imem_domain imem_iommu = dev_iommu_domain device_iommu /\
  (obj_backend (iommu_object tegra_k1 env_ok imem_iommu args_2_pages (new_node empty_world))
     = IommuMapped <-> dev_iommu_domain device_iommu <> 0) /\
  (obj_backend (iommu_object tegra_k1 env_ok imem_iommu args_2_pages (new_node empty_world))
     = ContiguousHost <-> dev_iommu_domain device_iommu = 0) /\
  forall w2 : world,
    gk20a_instobj_dtor tegra_k1 imem_iommu
      (iommu_object tegra_k1 env_ok imem_iommu args_2_pages (new_node empty_world)) w2 =
    bind (match iommu_object tegra_k1 env_ok imem_iommu args_2_pages (new_node empty_world)
          with
          | ObjIommu node => gk20a_instobj_dtor_iommu imem_iommu node
          | ObjDma node => gk20a_instobj_dtor_dma tegra_k1 imem_iommu node
          end)
         (fun _ => nvkm_instobj_destroy) w2.
Proof.
  apply (backend_fixed_at_construction tegra_k1 KOk device_iommu 0 imem_iommu
           (gk20a_instmem_fini imem_iommu) imem_iommu env_ok args_2_pages empty_world 0
           (iommu_object tegra_k1 env_ok imem_iommu args_2_pages (new_node empty_world))
           (World ∅ (list_to_set_disj (alloc_list env_ok 0 2))
                  (foldl (iommu_insert tegra_k1 imem_iommu 0x100 (alloc_list env_ok 0 2))
                         ∅ (seq 0 2))
                  {[new_node empty_world := MmNode 1 (tagged_offset imem_iommu 0x100) 2]} ∅
                  ((EvAllocPage <$> alloc_list env_ok 0 2)
                     ++ [EvMmHead 2 1 0 (new_node empty_world)]
                     ++ (map_event tegra_k1 imem_iommu 0x100 (alloc_list env_ok 0 2) 0
                           <$> seq 0 2)))).
  - reflexivity.
  - apply rtc_once. apply step_fini.
  - apply rtc_once.
    apply (step_rd32 (gk20a_instmem_fini imem_iommu) (obj_at 0) 0 empty_world 0
                     imem_iommu
                     (World {[0x001700 := 0]} ∅ ∅ ∅ ∅ [EvWr32 0x001700 0; EvRd32 0x700000])).
    vm_compute. reflexivity.
  - vm_compute. reflexivity.
Defined.

(** ** Destroying an object whose constructor failed *)

(** The guard of the DMA destructor: nothing is called for a NULL
    [cpuaddr]. *)
Lemma dtor_dma_null_cpuaddr (pf : platform) (imem : gk20a_instmem)
    (node : gk20a_instobj_dma) (w : world) :
  cpuaddr node = 0 -> gk20a_instobj_dtor_dma pf imem node w = Some (tt, w).
Proof.
  intros H. unfold gk20a_instobj_dtor_dma. rewrite H. reflexivity.
Qed.

(** The guard of the IOMMU destructor: nothing is called for an
    initialised, empty [regions] list, when [node->mem] can be read.  No
    constructor of this file leaves an object in that state. *)
Lemma dtor_iommu_empty_regions (imem : gk20a_instmem) (node : gk20a_instobj_iommu)
    (w : world) :
  mem (iommu_base node) = true ->
  mem_regions (_mem (iommu_base node)) = [] ->
  gk20a_instobj_dtor_iommu imem node w = Some (tt, w).
Proof.
  intros Hmem Hreg. unfold gk20a_instobj_dtor_iommu, node_mem, bind.
  rewrite Hmem. unfold pure. rewrite Hreg. reflexivity.
Qed.

(** The guard reads [regions] through [node->mem]: with [node->mem] NULL
    the IOMMU destructor faults before it tests anything. *)
Lemma dtor_iommu_null_mem (imem : gk20a_instmem) (node : gk20a_instobj_iommu)
    (w : world) :
  mem (iommu_base node) = false ->
  gk20a_instobj_dtor_iommu imem node w = None.
Proof.
  intros Hmem. unfold gk20a_instobj_dtor_iommu, node_mem, bind.
  rewrite Hmem. reflexivity.
Qed.

(** Destroying the object a failed DMA constructor leaves calls nothing
    but [nvkm_instobj_destroy]. *)
Lemma dtor_after_failed_dma_ctor (pf : platform) (env : ctor_env) (imem : gk20a_instmem)
    (args : nvkm_instobj_args) (w : world) (ret : Z) (o : object) (w' w2 : world) :
  imem_domain imem = 0 ->
  gk20a_instobj_ctor pf env imem args w = Some ((ret, Some o), w') ->
  ret <> 0 ->
  gk20a_instobj_dtor pf imem o w2 =
  Some (tt, World (w_regs w2) (w_pages w2) (w_iommu w2) (w_mm w2) (w_dma w2)
                  (w_trace w2 ++ [EvInstobjDestroy])).
Proof.
  intros Hdom H Hret.
  destruct (ctor_dma_failed_cpuaddr pf env imem args w ret o w' Hdom H Hret)
    as (node & -> & Hcpu).
  unfold gk20a_instobj_dtor, bind. rewrite Hdom. cbn [Z.eqb negb].
  rewrite dtor_dma_null_cpuaddr by exact Hcpu. reflexivity.
Qed.

(** Destroying the object a failed IOMMU constructor leaves faults, in
    whatever sub-step the constructor failed. *)
Lemma dtor_after_failed_iommu_ctor (pf : platform) (env : ctor_env) (imem : gk20a_instmem)
    (args : nvkm_instobj_args) (w : world) (ret : Z) (o : object) (w' w2 : world) :
  imem_domain imem <> 0 ->
  gk20a_instobj_ctor pf env imem args w = Some ((ret, Some o), w') ->
  ret <> 0 ->
  gk20a_instobj_dtor pf imem o w2 = None.
Proof.
  intros Hdom H Hret.
  destruct (ctor_iommu_failed_mem pf env imem args w ret o w' Hdom H Hret)
    as (node & -> & Hmem).
  unfold gk20a_instobj_dtor, bind. apply Z.eqb_neq in Hdom. rewrite Hdom. cbn [negb].
  rewrite dtor_iommu_null_mem by exact Hmem. reflexivity.
Qed.

(** C10, at the failing input: with an IOMMU domain, a one-page request
    whose page allocation fails returns [-ENOMEM] with every resource
    given back, and destroying the object it leaves faults on the NULL
    [node->mem] instead of returning; the same request on the DMA backend
    fails in [dma_alloc_attrs] and its object is destroyed without a call
    to any free routine. *)
Theorem destroy_after_failed_ctor :
  (exists o w',
     gk20a_instobj_ctor tegra_k1 env_alloc_fail imem_iommu args_1_page empty_world
       = Some ((- ENOMEM, Some o), w') /\
     resources w' = resources empty_world /\
     mem (obj_base o) = false /\
     gk20a_instobj_dtor tegra_k1 imem_iommu o w' = None) /\
  (exists o w' w'',
     gk20a_instobj_ctor tegra_k1 env_dma_fail imem_dma args_1_page empty_world
       = Some ((- ENOMEM, Some o), w') /\
     gk20a_instobj_dtor tegra_k1 imem_dma o w' = Some (tt, w'') /\
     w_trace w'' = w_trace w' ++ [EvInstobjDestroy] /\
     resources w'' = resources empty_world).
Proof.
  split.
  - eexists _, _. split; [vm_compute; reflexivity |].
    split; [reflexivity |]. split; reflexivity.
  - eexists _, _, _. split; [vm_compute; reflexivity |].
    split; [vm_compute; reflexivity |]. split; reflexivity.
Qed.

(** ** Teardown of an IOMMU object *)














Lemma ctor_size_range (pf : platform) (args : nvkm_instobj_args) :
  0 <= ctor_size pf args < 2 ^ 32.
Proof. apply u32_range. Qed.






(** * Further properties of the driver *)

(** ** Rounding of the request *)

Lemma PAGE_SIZE_pos (pf : platform) : platform_ok pf -> 0 < PAGE_SIZE pf.
Proof.
  intros Hpf. rewrite (PAGE_SIZE_pow2 pf Hpf). apply Z.pow_pos_nonneg; [lia |].
  destruct Hpf as [H _]. lia.
Qed.

Lemma PAGE_SIZE_divides (pf : platform) (k : Z) :
  platform_ok pf -> PAGE_SHIFT pf <= k -> (2 ^ k) mod PAGE_SIZE pf = 0.
Proof.
  intros Hpf Hk. rewrite (PAGE_SIZE_pow2 pf Hpf). destruct Hpf as [H _].
  replace k with ((k - PAGE_SHIFT pf) + PAGE_SHIFT pf) by lia.
  rewrite Z.pow_add_r by lia. apply Z.mod_mul.
  apply Z.pow_nonzero; lia.
Qed.

Lemma mod_mod_divides (x m P : Z) :
  0 < P -> 0 < m -> m mod P = 0 -> x mod P = 0 -> (x mod m) mod P = 0.
Proof.
  intros HP Hm HmP HxP.
  apply Z.mod_divide in HmP; [| lia]. apply Z.mod_divide in HxP; [| lia].
  apply Z.mod_divide; [lia |].
  rewrite Z.mod_eq by lia.
  apply Z.divide_sub_r; [exact HxP |].
  apply Z.divide_mul_l. exact HmP.
Qed.

(** Whatever the request, the size and the alignment the constructor
    works with are multiples of the page size. *)
Lemma ctor_rounded_multiple (pf : platform) (x : Z) :
  platform_ok pf -> PAGE_SHIFT pf <= 32 ->
  u32 (Z.max (roundup pf x (PAGE_SIZE pf)) (PAGE_SIZE pf)) mod PAGE_SIZE pf = 0.
Proof.
  intros Hpf H32. pose proof (PAGE_SIZE_pos pf Hpf) as HP.
  unfold u32, wrap. apply mod_mod_divides; [exact HP | lia | |].
  - apply PAGE_SIZE_divides; [exact Hpf | exact H32].
  - destruct (Z.max_spec (roundup pf x (PAGE_SIZE pf)) (PAGE_SIZE pf)) as [[_ ->] | [_ ->]].
    + apply Z.mod_same. lia.
    + unfold roundup, ulong, wrap. apply mod_mod_divides; [exact HP | | |].
      * apply Z.pow_pos_nonneg; [lia |]. destruct Hpf as [H _]. lia.
      * apply PAGE_SIZE_divides; [exact Hpf |]. destruct Hpf as [H _]. lia.
      * apply Z.mod_mul. lia.
Qed.

Lemma roundup_in_range (pf : platform) (x : Z) :
  platform_ok pf -> PAGE_SHIFT pf < 32 ->
  0 <= x -> x + PAGE_SIZE pf <= 2 ^ 32 ->
  u32 (Z.max (roundup pf x (PAGE_SIZE pf)) (PAGE_SIZE pf)) =
  Z.max ((x + (PAGE_SIZE pf - 1)) / PAGE_SIZE pf * PAGE_SIZE pf) (PAGE_SIZE pf).
Proof.
  intros Hpf H32 Hx Hfit. pose proof (PAGE_SIZE_pos pf Hpf) as HP.
  assert (2 ^ 32 <= 2 ^ BITS_PER_LONG pf) as Hbits.
  { apply Z.pow_le_mono_r; [lia |]. destruct Hpf as [_ [-> | ->]]; lia. }
  pose proof (Z.mul_div_le (x + (PAGE_SIZE pf - 1)) (PAGE_SIZE pf) HP) as Hle.
  assert (0 <= (x + (PAGE_SIZE pf - 1)) / PAGE_SIZE pf * PAGE_SIZE pf) as Hnn.
  { apply Z.mul_nonneg_nonneg; [apply Z.div_pos; lia | lia]. }
  assert (PAGE_SIZE pf < 2 ^ 32) as Hsmall.
  { rewrite (PAGE_SIZE_pow2 pf Hpf). apply Z.pow_lt_mono_r; [lia | lia | exact H32]. }
  unfold roundup, ulong, wrap.
  rewrite (Z.mod_small (x + (PAGE_SIZE pf - 1))) by lia.
  rewrite (Z.mod_small (_ / _ * _)) by lia.
  apply u32_small. lia.
Qed.

Lemma npages_of_size (pf : platform) (args : nvkm_instobj_args) :
  platform_ok pf -> PAGE_SHIFT pf <= 32 ->
  Z.of_nat (ctor_npages pf args) * PAGE_SIZE pf = ctor_size pf args.
Proof.
  intros Hpf H32. pose proof (PAGE_SIZE_pos pf Hpf) as HP.
  pose proof (ctor_size_range pf args) as Hr.
  pose proof (ctor_rounded_multiple pf (args_size args) Hpf H32) as Hmul.
  fold (ctor_size pf args) in Hmul.
  unfold ctor_npages, ctor_npages_z. destruct Hpf as [Hps Hbits].
  rewrite Z.shiftr_div_pow2 by lia.
  rewrite <- (PAGE_SIZE_pow2 pf (conj Hps Hbits)).
  assert (0 <= ctor_size pf args / PAGE_SIZE pf <= ctor_size pf args) as Hq.
  { split; [apply Z.div_pos; lia |]. apply Z.div_le_upper_bound; [lia |]. nia. }
  rewrite u32_small by lia. rewrite Z2Nat.id by lia.
  pose proof (Z.div_mod (ctor_size pf args) (PAGE_SIZE pf)) as Hdm. lia.
Qed.

(** X1: for a request that leaves room for the rounding (size at most
    2^32 minus the page size), the size [gk20a_instobj_ctor] works with is
    the request rounded up to the next multiple of the page size, one page
    for an empty request: it is at least one page and at least the
    request, exceeds a non-empty request by less than a page, is a
    multiple of the page size, and is [npages] pages with [npages] at
    least 1. *)
Theorem ctor_rounds_size_up (pf : platform) (args : nvkm_instobj_args) :
  platform_ok pf ->
  PAGE_SHIFT pf < 32 ->
  0 <= args_size args ->
  args_size args + PAGE_SIZE pf <= 2 ^ 32 ->
  PAGE_SIZE pf <= ctor_size pf args /\
  args_size args <= ctor_size pf args /\
  ctor_size pf args < Z.max (args_size args) 1 + PAGE_SIZE pf /\
  ctor_size pf args mod PAGE_SIZE pf = 0 /\
  Z.of_nat (ctor_npages pf args) * PAGE_SIZE pf = ctor_size pf args /\
  (1 <= ctor_npages pf args)%nat.
Proof.
  intros Hpf H32 Hx Hfit. pose proof (PAGE_SIZE_pos pf Hpf) as HP.
  pose proof (npages_of_size pf args Hpf ltac:(lia)) as Hn.
  pose proof (ctor_rounded_multiple pf (args_size args) Hpf ltac:(lia)) as Hmul.
  fold (ctor_size pf args) in Hmul.
  assert (ctor_size pf args =
          Z.max ((args_size args + (PAGE_SIZE pf - 1)) / PAGE_SIZE pf * PAGE_SIZE pf)
                (PAGE_SIZE pf)) as E.
  { unfold ctor_size. apply roundup_in_range; assumption. }
  pose proof (Z.div_mod (args_size args + (PAGE_SIZE pf - 1)) (PAGE_SIZE pf)) as Hdm.
  pose proof (Z.mod_pos_bound (args_size args + (PAGE_SIZE pf - 1)) (PAGE_SIZE pf) HP) as Hb.
  assert (PAGE_SIZE pf <= ctor_size pf args) as H1 by lia.
  split; [exact H1 |]. split; [lia |]. split; [lia |]. split; [exact Hmul |].
  split; [exact Hn |]. nia.
Qed.

Lemma ctor_rounds_size_up_witness :
  PAGE_SIZE tegra_k1 <= ctor_size tegra_k1 (Args 0x1801 0x1000) /\
  args_size (Args 0x1801 0x1000) <= ctor_size tegra_k1 (Args 0x1801 0x1000) /\
  ctor_size tegra_k1 (Args 0x1801 0x1000)
    < Z.max (args_size (Args 0x1801 0x1000)) 1 + PAGE_SIZE tegra_k1 /\
  ctor_size tegra_k1 (Args 0x1801 0x1000) mod PAGE_SIZE tegra_k1 = 0 /\
  Z.of_nat (ctor_npages tegra_k1 (Args 0x1801 0x1000)) * PAGE_SIZE tegra_k1
    = ctor_size tegra_k1 (Args 0x1801 0x1000) /\
  (1 <= ctor_npages tegra_k1 (Args 0x1801 0x1000))%nat.
Proof.
  apply ctor_rounds_size_up.
  - unfold platform_ok. simpl. lia.
  - simpl. lia.
  - simpl. lia.
  - vm_compute. discriminate.
Defined.

(** X2: a request within one page of 4 GiB overflows the rounding.  Where
    [unsigned long] has 64 bits the rounded size is 2^32 and is truncated
    to 0, so the constructor works with no page at all; where it has 32
    bits the addition wraps and the constructor works with one page. *)
Theorem ctor_size_overflow (pf : platform) (args : nvkm_instobj_args) :
  platform_ok pf ->
  PAGE_SHIFT pf < 32 ->
  2 ^ 32 - PAGE_SIZE pf < args_size args < 2 ^ 32 ->
  (BITS_PER_LONG pf = 64 -> ctor_size pf args = 0 /\ ctor_npages pf args = 0%nat) /\
  (BITS_PER_LONG pf = 32 ->
   ctor_size pf args = PAGE_SIZE pf /\ ctor_npages pf args = 1%nat).
Proof.
  intros Hpf H32 Hx. pose proof (PAGE_SIZE_pos pf Hpf) as HP.
  pose proof (npages_of_size pf args Hpf ltac:(lia)) as Hn.
  assert (PAGE_SIZE pf < 2 ^ 32) as Hsmall.
  { rewrite (PAGE_SIZE_pow2 pf Hpf). apply Z.pow_lt_mono_r; [lia | lia | exact H32]. }
  pose proof (PAGE_SIZE_divides pf 32 Hpf ltac:(lia)) as Hdiv.
  apply Z.mod_divide in Hdiv; [| lia]. destruct Hdiv as [q Hq].
  split; intros Hbits.
  - assert (ctor_size pf args = 0) as E.
    { unfold ctor_size, roundup, ulong, wrap. rewrite Hbits.
      rewrite (Z.mod_small (args_size args + (PAGE_SIZE pf - 1))) by lia.
      assert ((args_size args + (PAGE_SIZE pf - 1)) / PAGE_SIZE pf = q) as ->.
      { symmetry. apply Z.div_unique with (args_size args + (PAGE_SIZE pf - 1) - 2 ^ 32);
          lia. }
      rewrite <- Hq. rewrite (Z.mod_small (2 ^ 32)) by lia.
      rewrite Z.max_l by lia. reflexivity. }
    split; [exact E |]. rewrite E in Hn. nia.
  - assert (ctor_size pf args = PAGE_SIZE pf) as E.
    { unfold ctor_size, roundup, ulong, wrap. rewrite Hbits.
      assert ((args_size args + (PAGE_SIZE pf - 1)) mod 2 ^ 32
              = args_size args + (PAGE_SIZE pf - 1) - 2 ^ 32) as ->.
      { symmetry. apply Z.mod_unique with 1; lia. }
      rewrite (Z.div_small (_ - 2 ^ 32)) by lia.
      rewrite Z.mul_0_l, Z.mod_0_l by lia. rewrite Z.max_r by lia.
      apply u32_small. lia. }
    split; [exact E |]. rewrite E in Hn. nia.
Qed.

Lemma ctor_size_overflow_witness :
  (BITS_PER_LONG arm64_4k = 64 ->
   ctor_size arm64_4k (Args 0xfffff001 0x1000) = 0 /\
   ctor_npages arm64_4k (Args 0xfffff001 0x1000) = 0%nat) /\
  (BITS_PER_LONG arm64_4k = 32 ->
   ctor_size arm64_4k (Args 0xfffff001 0x1000) = PAGE_SIZE arm64_4k /\
   ctor_npages arm64_4k (Args 0xfffff001 0x1000) = 1%nat).
Proof.
  apply ctor_size_overflow.
  - unfold platform_ok. simpl. lia.
  - simpl. lia.
  - split; vm_compute; reflexivity.
Defined.

(** ** Which calls of the constructor succeed, and what they return *)

Lemma ctor_success_inv (pf : platform) (env : ctor_env) (imem : gk20a_instmem)
    (args : nvkm_instobj_args) (w : world) (node : option object) (w' : world) :
  gk20a_instobj_ctor pf env imem args w = Some ((0, node), w') ->
  (imem_domain imem = 0 /\ env_create env = KOk /\ env_dma_cpuaddr env <> 0) \/
  (imem_domain imem <> 0 /\ all_succeed pf env args).
Proof.
  intros H. destruct (env_create env) as [| e] eqn:Hcreate.
  2:{ rewrite (ctor_create_failure pf env imem args w e Hcreate) in H. discriminate H. }
  destruct (Z.eq_dec (imem_domain imem) 0) as [Hdom | Hdom].
  - left. split; [exact Hdom |]. split; [reflexivity |]. intros Hcpu.
    rewrite (ctor_dma_failure pf env imem args w Hdom Hcreate Hcpu) in H. discriminate H.
  - right. split; [exact Hdom |].
    destruct (first_null_page (env_alloc_page env) (ctor_npages pf args))
      as [Hpages | (k & Hk & Hpages & Hnull)].
    2:{ rewrite (ctor_iommu_alloc_failure pf env imem args w k Hdom Hcreate Hk Hpages Hnull)
          in H. discriminate H. }
    destruct (env_mm_head env) as [| e] eqn:Hhead.
    2:{ rewrite (ctor_iommu_head_failure pf env imem args w e Hdom Hcreate Hpages Hhead)
          in H. discriminate H. }
    destruct (first_failed_map (env_iommu_map env) (ctor_npages pf args))
      as [Hmaps | (k & e & Hk & Hmaps & Hfailed)].
    2:{ rewrite (ctor_iommu_map_failure pf env imem args w k e
                   Hdom Hcreate Hpages Hhead Hk Hmaps Hfailed) in H. discriminate H. }
    repeat split; assumption.
Qed.

(** X3: which error an IOMMU constructor call returns.  The call returns
    0 exactly when creating the object, every page allocation, the range
    reservation and every mapping succeed.  Otherwise the first sub-step
    that fails decides: the code of [nvkm_instobj_create_] (and no object,
    and nothing called), [-ENOMEM] for a page allocation, the code of
    [nvkm_mm_head], or the code of the first failing [iommu_map]. *)
Theorem ctor_iommu_error_code (pf : platform) (env : ctor_env) (imem : gk20a_instmem)
    (args : nvkm_instobj_args) (w : world) :
  imem_domain imem <> 0 ->
  exists ret node w',
    gk20a_instobj_ctor pf env imem args w = Some ((ret, node), w') /\
    (ret = 0 <-> all_succeed pf env args) /\
    (forall e, env_create env = KErr e -> ret = Z.neg e /\ node = None /\ w' = w) /\
    (env_create env = KOk -> alloc_fails env (ctor_npages pf args) -> ret = - ENOMEM) /\
    (env_create env = KOk -> ~ alloc_fails env (ctor_npages pf args) ->
     forall e, env_mm_head env = KErr e -> ret = Z.neg e) /\
    (env_create env = KOk -> ~ alloc_fails env (ctor_npages pf args) ->
     env_mm_head env = KOk ->
     forall k e, (k < ctor_npages pf args)%nat ->
                 (forall j : nat, (j < k)%nat -> env_iommu_map env j = KOk) ->
                 env_iommu_map env k = KErr e -> ret = Z.neg e).
Proof.
  intros Hdom. destruct (env_create env) as [| e0] eqn:Hcreate.
  2:{ eexists _, _, _. rewrite (ctor_create_failure pf env imem args w e0 Hcreate).
      split; [reflexivity |]. split.
      { split; [intros H; discriminate H |]. intros (Hc & _). congruence. }
      split; [intros e He; injection He as <-; auto |].
      repeat split; intros Hc; discriminate Hc. }
  destruct (first_null_page (env_alloc_page env) (ctor_npages pf args))
    as [Hpages | (k & Hk & Hpages & Hnull)].
  2:{ eexists _, _, _.
      rewrite (ctor_iommu_alloc_failure pf env imem args w k Hdom Hcreate Hk Hpages Hnull).
      assert (alloc_fails env (ctor_npages pf args)) as Hfails by (exists k; auto).
      split; [reflexivity |]. split.
      { split; [intros H; discriminate H |]. intros (_ & Hp & _).
        exfalso. apply (Hp k Hk Hnull). }
      split; [intros e He; discriminate He |].
      split; [reflexivity |]. split; intros _ Hn; contradiction. }
  assert (~ alloc_fails env (ctor_npages pf args)) as Hnofail.
  { intros (i & Hi & Hz). apply (Hpages i Hi Hz). }
  destruct (env_mm_head env) as [| e1] eqn:Hhead.
  2:{ eexists _, _, _.
      rewrite (ctor_iommu_head_failure pf env imem args w e1 Hdom Hcreate Hpages Hhead).
      split; [reflexivity |]. split.
      { split; [intros H; discriminate H |]. intros (_ & _ & Hh & _).
        rewrite Hhead in Hh. discriminate Hh. }
      split; [intros e He; discriminate He |].
      split; [intros _ Hf; contradiction |].
      split; [intros _ _ e He; injection He as <-; reflexivity |].
      intros _ _ Hh. discriminate Hh. }
  destruct (first_failed_map (env_iommu_map env) (ctor_npages pf args))
    as [Hmaps | (k & e2 & Hk & Hmaps & Hfailed)].
  - eexists _, _, _.
    rewrite (ctor_iommu_success pf env imem args w Hdom Hcreate Hpages Hhead Hmaps).
    split; [reflexivity |]. split.
    { split; [intros _; repeat split; assumption | reflexivity]. }
    split; [intros e He; discriminate He |].
    split; [intros _ Hf; contradiction |].
    split; [intros _ _ e He; discriminate He |].
    intros _ _ _ k e Hk _ Hf. rewrite (Hmaps k Hk) in Hf. discriminate Hf.
  - eexists _, _, _.
    rewrite (ctor_iommu_map_failure pf env imem args w k e2
               Hdom Hcreate Hpages Hhead Hk Hmaps Hfailed).
    split; [reflexivity |]. split.
    { split; [intros H; discriminate H |]. intros (_ & _ & _ & Hm).
      rewrite (Hm k Hk) in Hfailed. discriminate Hfailed. }
    split; [intros e He; discriminate He |].
    split; [intros _ Hf; contradiction |].
    split; [intros _ _ e He; discriminate He |].
    intros _ _ _ k' e' Hk' Hpre Hf.
    destruct (lt_eq_lt_dec k' k) as [[Hlt | ->] | Hgt].
    + rewrite (Hmaps k' Hlt) in Hf. discriminate Hf.
    + rewrite Hfailed in Hf. injection Hf as <-. reflexivity.
    + rewrite (Hpre k Hgt) in Hfailed. discriminate Hfailed.
Qed.

Lemma ctor_iommu_error_code_witness :
  exists ret node w',
    gk20a_instobj_ctor tegra_k1 (env_map_fail 2) imem_iommu args_4_pages empty_world
      = Some ((ret, node), w') /\
    (ret = 0 <-> all_succeed tegra_k1 (env_map_fail 2) args_4_pages) /\
    (forall e, env_create (env_map_fail 2) = KErr e ->
               ret = Z.neg e /\ node = None /\ w' = empty_world) /\
    (env_create (env_map_fail 2) = KOk ->
     alloc_fails (env_map_fail 2) (ctor_npages tegra_k1 args_4_pages) -> ret = - ENOMEM) /\
    (env_create (env_map_fail 2) = KOk ->
     ~ alloc_fails (env_map_fail 2) (ctor_npages tegra_k1 args_4_pages) ->
     forall e, env_mm_head (env_map_fail 2) = KErr e -> ret = Z.neg e) /\
    (env_create (env_map_fail 2) = KOk ->
     ~ alloc_fails (env_map_fail 2) (ctor_npages tegra_k1 args_4_pages) ->
     env_mm_head (env_map_fail 2) = KOk ->
     forall k e, (k < ctor_npages tegra_k1 args_4_pages)%nat ->
                 (forall j : nat, (j < k)%nat -> env_iommu_map (env_map_fail 2) j = KOk) ->
                 env_iommu_map (env_map_fail 2) k = KErr e -> ret = Z.neg e).
Proof.
  apply ctor_iommu_error_code. discriminate.
Defined.

Lemma new_node_not_null (w : world) : new_node w <> 0.
Proof.
  unfold new_node. pose proof (is_fresh ({[0]} ∪ dom (w_mm w))) as H. set_solver.
Qed.

(** X4: the shape of every object a successful constructor call returns.
    [node->mem] points at [_mem]; the size is the rounded request, a
    multiple of the page size; [base.addr] is [mem->offset]; the small-page
    view has [size >> 12] pages of shift 12.  A DMA object owns a buffer
    (non-NULL [cpuaddr]) that is outstanding with the size asked for, and
    its only region is the embedded node.  An IOMMU object holds one
    non-NULL page per page of the size, and its only region is a non-NULL
    node of the heap that was not reserved before, has the length of the
    object and carries the offset [mem->offset] was computed from. *)
Theorem ctor_success_object (pf : platform) (env : ctor_env) (imem : gk20a_instmem)
    (args : nvkm_instobj_args) (w : world) (o : object) (w' : world) :
  platform_ok pf -> PAGE_SHIFT pf <= 32 ->
  gk20a_instobj_ctor pf env imem args w = Some ((0, Some o), w') ->
  mem (obj_base o) = true /\
  base_size (obj_base o) = ctor_size pf args /\
  base_size (obj_base o) mod PAGE_SIZE pf = 0 /\
  base_addr (obj_base o) = mem_offset (_mem (obj_base o)) /\
  mem_size (_mem (obj_base o)) = Z.shiftr (base_size (obj_base o)) 12 /\
  mem_memtype (_mem (obj_base o)) = 0 /\
  mem_page_shift (_mem (obj_base o)) = 12 /\
  match o with
  | ObjDma n =>
      imem_domain imem = 0 /\ cpuaddr n <> 0 /\
      mem_offset (_mem (dma_base n)) = handle n /\
      mem_regions (_mem (dma_base n)) = [RegionEmbedded] /\
      nd_type (r n) = 12 /\ nd_offset (r n) = u32 (Z.shiftr (handle n) 12) /\
      (cpuaddr n, handle n, dma_bytes pf args) ∈ w_dma w'
  | ObjIommu n =>
      imem_domain imem <> 0 /\
      length (pages n) = ctor_npages pf args /\
      Forall (fun p => p <> 0) (pages n) /\
      exists rn nd,
        mem_regions (_mem (iommu_base n)) = [RegionHeap rn] /\
        rn <> 0 /\ w_mm w !! rn = None /\ w_mm w' !! rn = Some nd /\
        nd_length nd = ctor_npages_z pf args /\
        mem_offset (_mem (iommu_base n))
        = u64 (Z.shiftl (nd_offset nd) (imem_iommu_pgshift imem))
  end.
Proof.
  intros Hpf H32 H.
  pose proof (ctor_rounded_multiple pf (args_size args) Hpf H32) as Hmul.
  fold (ctor_size pf args) in Hmul.
  destruct (ctor_success_inv pf env imem args w (Some o) w' H)
    as [(Hdom & Hcreate & Hcpu) | (Hdom & Hcreate & Hpages & Hhead & Hmaps)].
  - rewrite (ctor_dma_success pf env imem args w Hdom Hcreate Hcpu) in H.
    injection H as <- <-. unfold dma_object.
    cbn [obj_base dma_base mem base_size base_addr _mem mem_offset mem_size
         mem_memtype mem_page_shift mem_regions cpuaddr handle r nd_type nd_offset w_dma].
    repeat (split; [first [reflexivity | assumption] |]).
    multiset_solver.
  - rewrite (ctor_iommu_success pf env imem args w Hdom Hcreate Hpages Hhead Hmaps) in H.
    injection H as <- <-. unfold iommu_object.
    cbn [obj_base iommu_base mem base_size base_addr _mem mem_offset mem_size
         mem_memtype mem_page_shift mem_regions pages w_mm].
    repeat (split; [first [reflexivity | assumption] |]).
    split; [apply alloc_list_length |].
    split; [apply alloc_list_nonzero; intros j Hj; apply Hpages; exact Hj |].
    exists (new_node w), (MmNode 1 (tagged_offset imem (env_mm_offset env))
                                 (ctor_npages_z pf args)).
    split; [reflexivity |]. split; [apply new_node_not_null |].
    split; [apply new_node_fresh |]. split; [apply lookup_insert_eq |].
    split; reflexivity.
Qed.

Lemma ctor_success_object_witness :
  exists o w',
    gk20a_instobj_ctor tegra_k1 env_ok imem_iommu args_2_pages empty_world
      = Some ((0, Some o), w') /\
    mem (obj_base o) = true /\
    base_size (obj_base o) = ctor_size tegra_k1 args_2_pages /\
    base_size (obj_base o) mod PAGE_SIZE tegra_k1 = 0 /\
    base_addr (obj_base o) = mem_offset (_mem (obj_base o)) /\
    mem_size (_mem (obj_base o)) = Z.shiftr (base_size (obj_base o)) 12 /\
    mem_memtype (_mem (obj_base o)) = 0 /\
    mem_page_shift (_mem (obj_base o)) = 12 /\
    match o with
    | ObjDma n =>
        imem_domain imem_iommu = 0 /\ cpuaddr n <> 0 /\
        mem_offset (_mem (dma_base n)) = handle n /\
        mem_regions (_mem (dma_base n)) = [RegionEmbedded] /\
        nd_type (r n) = 12 /\ nd_offset (r n) = u32 (Z.shiftr (handle n) 12) /\
        (cpuaddr n, handle n, dma_bytes tegra_k1 args_2_pages) ∈ w_dma w'
    | ObjIommu n =>
        imem_domain imem_iommu <> 0 /\
        length (pages n) = ctor_npages tegra_k1 args_2_pages /\
        Forall (fun p => p <> 0) (pages n) /\
        exists rn nd,
          mem_regions (_mem (iommu_base n)) = [RegionHeap rn] /\
          rn <> 0 /\ w_mm empty_world !! rn = None /\ w_mm w' !! rn = Some nd /\
          nd_length nd = ctor_npages_z tegra_k1 args_2_pages /\
          mem_offset (_mem (iommu_base n))
          = u64 (Z.shiftl (nd_offset nd) (imem_iommu_pgshift imem_iommu))
    end.
Proof.
  eexists _, _. split; [vm_compute; reflexivity |].
  apply (ctor_success_object tegra_k1 env_ok imem_iommu args_2_pages empty_world).
  - split; [simpl; lia | left; reflexivity].
  - simpl. lia.
  - vm_compute. reflexivity.
Defined.

(** ** Creating an object and destroying it again *)




(** The size [gk20a_instobj_dtor_dma] gives to [dma_free_attrs] for an
    object of the rounded size [s]: [mem->size << PAGE_SHIFT] with
    [mem->size = s >> 12]. *)
Lemma dma_sizes (pf : platform) (args : nvkm_instobj_args) :
  platform_ok pf -> 12 <= PAGE_SHIFT pf <= 32 ->
  dma_bytes pf args = ctor_size pf args /\
  Z.shiftl (Z.shiftr (ctor_size pf args) 12) (PAGE_SHIFT pf)
  = ctor_size pf args * 2 ^ (PAGE_SHIFT pf - 12).
Proof.
  intros Hpf Hps. pose proof (PAGE_SIZE_pos pf Hpf) as HP.
  pose proof (ctor_size_range pf args) as Hr.
  pose proof (ctor_rounded_multiple pf (args_size args) Hpf (proj2 Hps)) as Hmul.
  fold (ctor_size pf args) in Hmul.
  pose proof (PAGE_SIZE_pow2 pf Hpf) as Hpow.
  assert (0 < 2 ^ (PAGE_SHIFT pf - 12)) as Hq by (apply Z.pow_pos_nonneg; lia).
  assert (PAGE_SIZE pf = 4096 * 2 ^ (PAGE_SHIFT pf - 12)) as Hsplit.
  { rewrite Hpow. change 4096 with (2 ^ 12). rewrite <- Z.pow_add_r by lia.
    f_equal. lia. }
  pose proof (Z.div_mod (ctor_size pf args) (PAGE_SIZE pf)) as Hdm.
  rewrite Hmul, Z.add_0_r in Hdm. specialize (Hdm ltac:(lia)).
  split.
  - unfold dma_bytes, ctor_npages_z.
    rewrite Z.shiftr_div_pow2, Z.shiftl_mul_pow2 by lia. rewrite <- Hpow.
    assert (0 <= ctor_size pf args / PAGE_SIZE pf <= ctor_size pf args) as Hd.
    { split; [apply Z.div_pos; lia |]. apply Z.div_le_upper_bound; [lia |]. nia. }
    rewrite (u32_small (ctor_size pf args / PAGE_SIZE pf)) by lia.
    rewrite Z.mul_comm, <- Hdm. apply u32_small. exact Hr.
  - rewrite Z.shiftr_div_pow2, Z.shiftl_mul_pow2 by lia. rewrite <- Hpow.
    change (2 ^ 12) with 4096.
    assert (ctor_size pf args / 4096
            = ctor_size pf args / PAGE_SIZE pf * 2 ^ (PAGE_SHIFT pf - 12)) as ->.
    { symmetry. apply Z.div_unique_exact; [lia |]. rewrite Hsplit in Hdm at 1. lia. }
    rewrite Hsplit at 2. lia.
Qed.

Lemma dtor_dma_object_run (pf : platform) (env : ctor_env) (imem : gk20a_instmem)
    (args : nvkm_instobj_args) (w : world) :
  imem_domain imem = 0 ->
  env_dma_cpuaddr env <> 0 ->
  let freed := ulong pf (u64 (Z.shiftl (Z.shiftr (ctor_size pf args) 12) (PAGE_SHIFT pf))) in
  gk20a_instobj_dtor pf imem (dma_object pf env args) w =
  Some (tt, World (w_regs w) (w_pages w) (w_iommu w) (w_mm w)
                  (w_dma w ∖ {[+ (env_dma_cpuaddr env, env_dma_handle env, freed) +]})
                  (w_trace w ++ [EvDmaFree freed (env_dma_cpuaddr env) (env_dma_handle env);
                                 EvInstobjDestroy])).
Proof.
  intros Hdom Hcpu freed.
  unfold gk20a_instobj_dtor, bind. rewrite Hdom. cbn [Z.eqb negb].
  unfold dma_object, gk20a_instobj_dtor_dma. cbn [cpuaddr handle dma_base].
  apply Z.eqb_neq in Hcpu. rewrite Hcpu.
  unfold bind, node_mem. cbn [mem _mem mem_size]. unfold pure, dma_free_attrs.
  fold freed. unfold nvkm_instobj_destroy, emit.
  cbn [w_regs w_pages w_iommu w_mm w_dma w_trace].
  rewrite <- app_assoc. reflexivity.
Qed.

Lemma dma_union_difference (X : gmultiset (Z * Z * Z)) (b : Z * Z * Z) :
  (X ⊎ {[+ b +]}) ∖ {[+ b +]} = X.
Proof. multiset_solver. Qed.

(** X6: creating a DMA object and destroying it gives the buffer back.
    With 4 KiB pages, when [dma_alloc_attrs] returns a buffer, the
    constructor asks for the rounded size of the request, and the
    destructor run on the object calls [dma_free_attrs] once, with the CPU
    address, the bus address and that same size; pages, IOMMU mappings,
    heap nodes, DMA buffers and registers are those before the
    constructor. *)
Theorem dma_create_destroy (pf : platform) (env : ctor_env) (imem : gk20a_instmem)
    (args : nvkm_instobj_args) (w : world) :
  platform_ok pf -> PAGE_SHIFT pf = 12 ->
  imem_domain imem = 0 ->
  env_create env = KOk ->
  env_dma_cpuaddr env <> 0 ->
  exists o w1 w2 warning,
    gk20a_instobj_ctor pf env imem args w = Some ((0, Some o), w1) /\
    gk20a_instobj_dtor pf imem o w1 = Some (tt, w2) /\
    w_trace w1 = w_trace w ++ (EvDmaAlloc (ctor_size pf args) (env_dma_cpuaddr env)
                                          (env_dma_handle env) :: warning) /\
    w_trace w2 = w_trace w1 ++ [EvDmaFree (ctor_size pf args) (env_dma_cpuaddr env)
                                          (env_dma_handle env);
                                EvInstobjDestroy] /\
    resources w2 = resources w /\ w_regs w2 = w_regs w.
Proof.
  intros Hpf Hps Hdom Hcreate Hcpu.
  destruct (dma_sizes pf args Hpf) as [Hbytes Hfreed]; [lia |].
  assert (ulong pf (u64 (Z.shiftl (Z.shiftr (ctor_size pf args) 12) (PAGE_SHIFT pf)))
          = ctor_size pf args) as Hsize.
  { rewrite Hfreed, Hps. change (2 ^ (12 - 12)) with 1. rewrite Z.mul_1_r.
    pose proof (ctor_size_range pf args) as Hr.
    rewrite u64_small by lia. unfold ulong, wrap. apply Z.mod_small.
    destruct Hpf as [_ [-> | ->]]; lia. }
  eexists _, _, _, _.
  rewrite (ctor_dma_success pf env imem args w Hdom Hcreate Hcpu).
  split; [reflexivity |].
  rewrite (dtor_dma_object_run pf env imem args _ Hdom Hcpu).
  split; [reflexivity |].
  rewrite Hsize, Hbytes. cbn [w_trace w_regs]. unfold resources.
  cbn [w_regs w_pages w_iommu w_mm w_dma].
  split; [reflexivity |]. split; [reflexivity |].
  rewrite dma_union_difference. split; reflexivity.
Qed.

Lemma dma_create_destroy_witness :
  exists o w1 w2 warning,
    gk20a_instobj_ctor tegra_k1 env_ok imem_dma args_2_pages empty_world
      = Some ((0, Some o), w1) /\
    gk20a_instobj_dtor tegra_k1 imem_dma o w1 = Some (tt, w2) /\
    w_trace w1 = w_trace empty_world
                   ++ (EvDmaAlloc (ctor_size tegra_k1 args_2_pages) (env_dma_cpuaddr env_ok)
                                 (env_dma_handle env_ok) :: warning) /\
    w_trace w2 = w_trace w1 ++ [EvDmaFree (ctor_size tegra_k1 args_2_pages)
                                          (env_dma_cpuaddr env_ok) (env_dma_handle env_ok);
                                EvInstobjDestroy] /\
    resources w2 = resources empty_world /\ w_regs w2 = w_regs empty_world.
Proof.
  apply dma_create_destroy.
  - split; [simpl; lia | left; reflexivity].
  - reflexivity.
  - reflexivity.
  - reflexivity.
  - discriminate.
Defined.

(** X7: with pages larger than 4 KiB the DMA destructor frees another size
    than the constructor allocated.  The constructor asks
    [dma_alloc_attrs] for the rounded size [s] of the request; the
    destructor computes the size from the small-page count,
    [(s >> 12) << PAGE_SHIFT], which is [s * 2 ^ (PAGE_SHIFT - 12)]: the
    two agree exactly when [PAGE_SHIFT] is 12. *)
Theorem dma_free_size (pf : platform) (env : ctor_env) (imem : gk20a_instmem)
    (args : nvkm_instobj_args) (w : world) :
  platform_ok pf -> 12 <= PAGE_SHIFT pf <= 32 ->
  ctor_size pf args <> 0 ->
  ctor_size pf args * 2 ^ (PAGE_SHIFT pf - 12) < 2 ^ BITS_PER_LONG pf ->
  imem_domain imem = 0 ->
  env_create env = KOk ->
  env_dma_cpuaddr env <> 0 ->
  exists o w1 w2 warning,
    gk20a_instobj_ctor pf env imem args w = Some ((0, Some o), w1) /\
    gk20a_instobj_dtor pf imem o w1 = Some (tt, w2) /\
    w_trace w1 = w_trace w ++ (EvDmaAlloc (ctor_size pf args) (env_dma_cpuaddr env)
                                          (env_dma_handle env) :: warning) /\
    w_trace w2 = w_trace w1
                   ++ [EvDmaFree (ctor_size pf args * 2 ^ (PAGE_SHIFT pf - 12))
                                 (env_dma_cpuaddr env) (env_dma_handle env);
                       EvInstobjDestroy] /\
    (ctor_size pf args * 2 ^ (PAGE_SHIFT pf - 12) = ctor_size pf args
     <-> PAGE_SHIFT pf = 12).
Proof.
  intros Hpf Hps Hnz Hfit Hdom Hcreate Hcpu.
  destruct (dma_sizes pf args Hpf Hps) as [Hbytes Hfreed].
  pose proof (ctor_size_range pf args) as Hr.
  pose proof (PAGE_SIZE_pos pf Hpf) as HP.
  assert (0 < 2 ^ (PAGE_SHIFT pf - 12)) as Hq by (apply Z.pow_pos_nonneg; lia).
  assert (ulong pf (u64 (Z.shiftl (Z.shiftr (ctor_size pf args) 12) (PAGE_SHIFT pf)))
          = ctor_size pf args * 2 ^ (PAGE_SHIFT pf - 12)) as Hsize.
  { rewrite Hfreed.
    assert (2 ^ BITS_PER_LONG pf <= 2 ^ 64) as Hb.
    { destruct Hpf as [_ [-> | ->]]; lia. }
    rewrite u64_small by nia. unfold ulong, wrap. apply Z.mod_small. nia. }
  eexists _, _, _, _.
  rewrite (ctor_dma_success pf env imem args w Hdom Hcreate Hcpu).
  split; [reflexivity |].
  rewrite (dtor_dma_object_run pf env imem args _ Hdom Hcpu).
  split; [reflexivity |].
  rewrite Hsize, Hbytes. cbn [w_trace].
  split; [reflexivity |]. split; [reflexivity |].
  split.
  - intros Heq. destruct (Z.eq_dec (PAGE_SHIFT pf) 12) as [E | E]; [exact E |].
    assert (2 ^ 1 <= 2 ^ (PAGE_SHIFT pf - 12)) as H2 by (apply Z.pow_le_mono_r; lia).
    nia.
  - intros ->. change (2 ^ (12 - 12)) with 1. lia.
Qed.

Lemma dma_free_size_witness :
  exists o w1 w2 warning,
    gk20a_instobj_ctor arm64_64k env_ok imem_dma args_1_page empty_world
      = Some ((0, Some o), w1) /\
    gk20a_instobj_dtor arm64_64k imem_dma o w1 = Some (tt, w2) /\
    w_trace w1 = w_trace empty_world
                   ++ (EvDmaAlloc (ctor_size arm64_64k args_1_page) (env_dma_cpuaddr env_ok)
                                 (env_dma_handle env_ok) :: warning) /\
    w_trace w2 = w_trace w1
                   ++ [EvDmaFree (ctor_size arm64_64k args_1_page
                                  * 2 ^ (PAGE_SHIFT arm64_64k - 12))
                                 (env_dma_cpuaddr env_ok) (env_dma_handle env_ok);
                       EvInstobjDestroy] /\
    (ctor_size arm64_64k args_1_page * 2 ^ (PAGE_SHIFT arm64_64k - 12)
     = ctor_size arm64_64k args_1_page
     <-> PAGE_SHIFT arm64_64k = 12).
Proof.
  apply dma_free_size.
  - split; [simpl; lia | right; reflexivity].
  - simpl. lia.
  - vm_compute. discriminate.
  - vm_compute. reflexivity.
  - reflexivity.
  - reflexivity.
  - discriminate.
Defined.

(** ** The window register and the aperture *)

(** The value a repoint writes has 28 bits, the low four of them zero. *)
Lemma window_reg_value (g : Z) :
  0 <= Z.shiftr (window_base g) 16 < 2 ^ 28 /\ Z.shiftr (window_base g) 16 mod 16 = 0.
Proof.
  pose proof (window_base_range g) as H. split.
  - rewrite Z.shiftr_div_pow2 by lia. split.
    + apply Z.div_pos; lia.
    + apply Z.div_lt_upper_bound; lia.
  - change 16 with (2 ^ 4) at 2. rewrite <- Z.land_ones by lia.
    apply Z.bits_inj'. intros n Hn.
    rewrite Z.land_spec, Z.shiftr_spec, Z.bits_0 by exact Hn.
    unfold window_base. rewrite Z.land_spec, Z.testbit_ones_nonneg by lia.
    destruct (Z.ltb_spec n 4) as [Hlt | Hge]; [| apply andb_false_r].
    assert (n = 0 \/ n = 1 \/ n = 2 \/ n = 3) as [-> | [-> | [-> | ->]]] by lia;
      rewrite andb_true_r; apply andb_false_r.
Qed.

(** One access in full: the state of [imem], the register store, the
    register traffic, and everything else as it was. *)
Lemma do_access_world (imem : gk20a_instmem) (a : access) (w : world) :
  mem (obj_base (access_object a)) = true ->
  let g := access_gpu a in
  exists w' e,
    do_access imem a w = Some (repoint_imem imem g, w') /\
    resources w' = resources w /\
    w_regs w' !! 0x001700 = repoint_regs (imem_addr imem) g (w_regs w) !! 0x001700 /\
    w_trace w' = w_trace w ++ access_events (imem_addr imem) g e /\
    (e = EvRd32 (0x700000 + window_addr g) \/
     exists d, e = EvWr32 (0x700000 + window_addr g) (u32 d)).
Proof.
  intros Hmem g. pose proof (window_addr_range g) as Hr.
  destruct a as [o offset | o offset data]; cbn [do_access access_object] in *.
  - unfold bind. rewrite rd32_run by exact Hmem. cbn [snd]. unfold pure.
    eexists _, _. split; [reflexivity |]. split; [reflexivity |].
    split; [reflexivity |]. split; [reflexivity |]. left. reflexivity.
  - rewrite wr32_run by exact Hmem.
    eexists _, _. split; [reflexivity |]. split; [reflexivity |].
    cbn [w_regs w_trace].
    split.
    { apply lookup_insert_ne.
      pose proof (window_addr_range (gpu_offset (_mem (obj_base o)) offset)). lia. }
    split; [reflexivity |]. right. exists data. reflexivity.
Qed.

Lemma do_access_coherent (imem : gk20a_instmem) (a : access) (w : world) :
  mem (obj_base (access_object a)) = true ->
  window_coherent imem w \/ invalidated imem ->
  exists w',
    do_access imem a w = Some (repoint_imem imem (access_gpu a), w') /\
    window_coherent (repoint_imem imem (access_gpu a)) w'.
Proof.
  intros Hmem Hstate.
  destruct (do_access_world imem a w Hmem) as (w' & e & Hrun & _ & Hreg & _).
  exists w'. split; [exact Hrun |].
  unfold window_coherent. rewrite Hreg, repoint_imem_addr. unfold repoint_regs.
  destruct (Z.eqb_spec (imem_addr imem) (window_base (access_gpu a))) as [E | E].
  - destruct Hstate as [Hcoh | Hinv].
    + rewrite <- E. exact Hcoh.
    + exfalso. apply (window_base_not_sentinel (access_gpu a)).
      rewrite <- E. exact Hinv.
  - apply lookup_insert_eq.
Qed.

(** X8: the window register follows the cache.  If register 0x001700
    holds [imem->addr >> 16], or if the cache has been invalidated and at
    least one access follows, then after any sequence of reads and writes
    of objects whose [mem] is set the register holds [imem->addr >> 16]
    again, and [imem->addr] is the window of the last access: no data access
    ever overwrites the window register, and no access leaves the cache
    ahead of the register. *)
Theorem window_register_follows_cache (l : list access) (imem : gk20a_instmem)
    (w : world) :
  Forall (fun a => mem (obj_base (access_object a)) = true) l ->
  window_coherent imem w \/ (invalidated imem /\ l <> []) ->
  exists imem' w',
    run_accesses imem l w = Some (imem', w') /\
    window_coherent imem' w' /\
    imem_addr imem' = last_base (imem_addr imem) l.
Proof.
  intros Hall. revert imem w.
  induction Hall as [| a l Ha Hl IH]; intros imem w Hstate.
  - destruct Hstate as [Hcoh | [_ Hne]]; [| contradiction Hne; reflexivity].
    exists imem, w. split; [reflexivity |]. split; [exact Hcoh | reflexivity].
  - assert (window_coherent imem w \/ invalidated imem) as Hstate'.
    { destruct Hstate as [Hcoh | [Hinv _]]; [left | right]; assumption. }
    destruct (do_access_coherent imem a w Ha Hstate') as (w1 & Hrun & Hcoh1).
    destruct (IH (repoint_imem imem (access_gpu a)) w1 (or_introl Hcoh1))
      as (imem' & w' & Hrest & Hcoh' & Haddr).
    exists imem', w'. cbn [run_accesses]. unfold bind. rewrite Hrun.
    split; [exact Hrest |]. split; [exact Hcoh' |].
    rewrite Haddr, repoint_imem_addr. reflexivity.
Qed.

Lemma window_register_follows_cache_witness :
  exists imem' w',
    run_accesses imem_invalidated trace_two_windows empty_world = Some (imem', w') /\
    window_coherent imem' w' /\
    imem_addr imem' = last_base (imem_addr imem_invalidated) trace_two_windows.
Proof.
  apply window_register_follows_cache.
  - repeat constructor.
  - right. split; [reflexivity | discriminate].
Defined.

Lemma access_events_in_aperture (cached g : Z) (e : event) :
  (e = EvRd32 (0x700000 + window_addr g) \/
   exists d, e = EvWr32 (0x700000 + window_addr g) (u32 d)) ->
  Forall in_aperture (access_events cached g e) /\
  (1 <= length (access_events cached g e) <= 2)%nat.
Proof.
  intros He. pose proof (window_addr_range g) as Hr.
  assert (in_aperture e) as Hdata.
  { destruct He as [-> | [d ->]]; cbn [in_aperture]; [lia |].
    right. split; [lia | apply u32_range]. }
  unfold access_events. destruct (cached =? window_base g); cbn [app length].
  - split; [| lia]. repeat constructor. exact Hdata.
  - split; [| lia]. constructor; [| repeat constructor; exact Hdata].
    cbn [in_aperture]. left. split; [reflexivity |]. apply window_reg_value.
Qed.

(** X9: what the accessors touch.  Any sequence of reads and writes of
    objects whose [mem] is set returns; the calls it makes are register
    accesses only, one or two per access; each is a write to register
    0x001700 of a 28-bit value with the low four bits zero, or a 32-bit
    access to a register of the aperture 0x700000 .. 0x7fffff, whatever
    the offsets are; pages, IOMMU mappings, heap nodes and DMA buffers
    stay as they were. *)
Theorem accesses_stay_in_aperture (l : list access) (imem : gk20a_instmem) (w : world) :
  Forall (fun a => mem (obj_base (access_object a)) = true) l ->
  exists imem' w' tr,
    run_accesses imem l w = Some (imem', w') /\
    w_trace w' = w_trace w ++ tr /\
    Forall in_aperture tr /\
    (length l <= length tr <= 2 * length l)%nat /\
    resources w' = resources w.
Proof.
  intros Hall. revert imem w.
  induction Hall as [| a l Ha Hl IH]; intros imem w.
  - exists imem, w, []. split; [reflexivity |]. rewrite app_nil_r.
    split; [reflexivity |]. split; [constructor |]. split; [simpl; lia | reflexivity].
  - destruct (do_access_world imem a w Ha) as (w1 & e & Hrun & Hres1 & _ & Htr1 & He).
    destruct (access_events_in_aperture (imem_addr imem) (access_gpu a) e He)
      as [Hin1 Hlen1].
    destruct (IH (repoint_imem imem (access_gpu a)) w1)
      as (imem' & w' & tr & Hrest & Htr & Hin & Hlen & Hres).
    exists imem', w', (access_events (imem_addr imem) (access_gpu a) e ++ tr).
    cbn [run_accesses]. unfold bind. rewrite Hrun.
    split; [exact Hrest |].
    split; [rewrite Htr, Htr1, <- app_assoc; reflexivity |].
    split; [apply Forall_app; split; assumption |].
    split; [rewrite length_app; cbn [length]; lia |].
    rewrite Hres. exact Hres1.
Qed.

Lemma accesses_stay_in_aperture_witness :
  exists imem' w' tr,
    run_accesses imem_invalidated trace_two_pages empty_world = Some (imem', w') /\
    w_trace w' = w_trace empty_world ++ tr /\
    Forall in_aperture tr /\
    (length trace_two_pages <= length tr <= 2 * length trace_two_pages)%nat /\
    resources w' = resources empty_world.
Proof.
  apply accesses_stay_in_aperture. repeat constructor.
Defined.

(** ** The addresses of an IOMMU object *)








(** ** Every call of the constructor returns *)

(** X11: the constructor returns on every input.  Whatever the request,
    the state of the subdev and the answers of the collaborators, the call
    returns zero or a negative code, without a NULL dereference and without
    reading [pages] outside the array; it leaves an object exactly when
    [nvkm_instobj_create_] succeeded, and [node->mem] of that object is
    set exactly when the code is zero; it writes no register, and it only
    adds to the sequence of calls made so far. *)
Theorem ctor_always_returns (pf : platform) (env : ctor_env) (imem : gk20a_instmem)
    (args : nvkm_instobj_args) (w : world) :
  exists ret node w' tr,
    gk20a_instobj_ctor pf env imem args w = Some ((ret, node), w') /\
    ret <= 0 /\
    (node = None <-> env_create env <> KOk) /\
    (forall o : object, node = Some o -> (mem (obj_base o) = true <-> ret = 0)) /\
    w_regs w' = w_regs w /\
    w_trace w' = w_trace w ++ tr.
Proof.
  assert (forall e : positive, Z.neg e = 0 -> False) as Hneg by (intros e He; discriminate He).
  destruct (env_create env) as [| e0] eqn:Hcreate.
  2:{ exists (Z.neg e0), None, w, [].
      rewrite (ctor_create_failure pf env imem args w e0 Hcreate).
      split; [reflexivity |]. split; [lia |].
      split; [split; [intros _ Hc; discriminate Hc | reflexivity] |].
      split; [intros o Ho; discriminate Ho |]. rewrite app_nil_r. split; reflexivity. }
  assert (forall o : object, Some o = None <-> KOk <> KOk) as Hsome.
  { intros o. split; [intros Ho; discriminate Ho | intros Hc; contradiction Hc; reflexivity]. }
  destruct (Z.eq_dec (imem_domain imem) 0) as [Hdom | Hdom].
  { destruct (Z.eq_dec (env_dma_cpuaddr env) 0) as [Hcpu | Hcpu].
    - eexists _, _, _, _. rewrite (ctor_dma_failure pf env imem args w Hdom Hcreate Hcpu).
      split; [reflexivity |]. split; [unfold ENOMEM; lia |]. split; [apply Hsome |].
      split; [| split; reflexivity].
      intros o Ho. injection Ho as <-. cbn [obj_base dma_base zero_instobj mem].
      split; intros Hc; discriminate Hc.
    - eexists _, _, _, _. rewrite (ctor_dma_success pf env imem args w Hdom Hcreate Hcpu).
      split; [reflexivity |]. split; [lia |]. split; [apply Hsome |].
      split; [| split; reflexivity].
      intros o Ho. injection Ho as <-. split; reflexivity. }
  destruct (first_null_page (env_alloc_page env) (ctor_npages pf args))
    as [Hpages | (k & Hk & Hpages & Hnull)].
  2:{ eexists _, _, _, _.
      rewrite (ctor_iommu_alloc_failure pf env imem args w k Hdom Hcreate Hk Hpages Hnull).
      split; [reflexivity |]. split; [unfold ENOMEM; lia |]. split; [apply Hsome |].
      split; [| split; reflexivity].
      intros o Ho. injection Ho as <-. cbn [obj_base iommu_base zero_instobj mem].
      split; intros Hc; discriminate Hc. }
  destruct (env_mm_head env) as [| e1] eqn:Hhead.
  2:{ eexists _, _, _, _.
      rewrite (ctor_iommu_head_failure pf env imem args w e1 Hdom Hcreate Hpages Hhead).
      split; [reflexivity |]. split; [lia |]. split; [apply Hsome |].
      split; [| split; reflexivity].
      intros o Ho. injection Ho as <-. cbn [obj_base iommu_base zero_instobj mem].
      split; intros Hc; discriminate Hc. }
  destruct (first_failed_map (env_iommu_map env) (ctor_npages pf args))
    as [Hmaps | (k & e2 & Hk & Hmaps & Hfailed)].
  - eexists _, _, _, _.
    rewrite (ctor_iommu_success pf env imem args w Hdom Hcreate Hpages Hhead Hmaps).
    split; [reflexivity |]. split; [lia |]. split; [apply Hsome |].
    split; [| split; reflexivity].
    intros o Ho. injection Ho as <-. split; reflexivity.
  - eexists _, _, _, _.
    rewrite (ctor_iommu_map_failure pf env imem args w k e2
               Hdom Hcreate Hpages Hhead Hk Hmaps Hfailed).
    split; [reflexivity |]. split; [lia |]. split; [apply Hsome |].
    split; [| split; reflexivity].
    intros o Ho. injection Ho as <-. cbn [obj_base iommu_base zero_instobj mem].
    split; intros Hc; discriminate Hc.
Qed.

(** ** A mapping failure when the IOMMU page is not the kernel page *)




(** ** The alignment check of the DMA backend *)

(** A power of two is rounded to itself, or to the page size when it is
    smaller. *)
Lemma ctor_align_power_of_two (pf : platform) (args : nvkm_instobj_args) (j : Z) :
  platform_ok pf -> PAGE_SHIFT pf < 32 ->
  0 <= j < 32 -> args_align args = 2 ^ j ->
  ctor_align pf args = 2 ^ Z.max j (PAGE_SHIFT pf).
Proof.
  intros Hpf HP Hj Halign. pose proof Hpf as [Hps _].
  pose proof (PAGE_SIZE_pow2 pf Hpf) as Hpow.
  assert (0 < 2 ^ j <= 2 ^ 31) as H1.
  { split; [apply Z.pow_pos_nonneg; lia | apply Z.pow_le_mono_r; lia]. }
  assert (0 < 2 ^ PAGE_SHIFT pf <= 2 ^ 31) as H2.
  { split; [apply Z.pow_pos_nonneg; lia | apply Z.pow_le_mono_r; lia]. }
  unfold ctor_align. rewrite roundup_in_range; [| exact Hpf | exact HP | lia | lia].
  rewrite Halign, Hpow.
  destruct (Z_le_gt_dec (PAGE_SHIFT pf) j) as [Hle | Hgt].
  - rewrite (Z.max_l j (PAGE_SHIFT pf)) by exact Hle.
    assert (2 ^ j = 2 ^ (j - PAGE_SHIFT pf) * 2 ^ PAGE_SHIFT pf) as Hsplit.
    { rewrite <- Z.pow_add_r by lia. f_equal. lia. }
    assert (0 < 2 ^ (j - PAGE_SHIFT pf)) as H3 by (apply Z.pow_pos_nonneg; lia).
    assert ((2 ^ j + (2 ^ PAGE_SHIFT pf - 1)) / 2 ^ PAGE_SHIFT pf
            = 2 ^ (j - PAGE_SHIFT pf)) as ->.
    { symmetry. apply (Z.div_unique _ _ _ (2 ^ PAGE_SHIFT pf - 1)); [lia |].
      rewrite Hsplit at 1. lia. }
    rewrite <- Hsplit. apply Z.max_l. nia.
  - rewrite (Z.max_r j (PAGE_SHIFT pf)) by lia.
    assert (2 ^ j < 2 ^ PAGE_SHIFT pf) as H3 by (apply Z.pow_lt_mono_r; lia).
    assert ((2 ^ j + (2 ^ PAGE_SHIFT pf - 1)) / 2 ^ PAGE_SHIFT pf = 1) as ->.
    { symmetry. apply (Z.div_unique _ _ _ (2 ^ j - 1)); lia. }
    rewrite Z.mul_1_l. apply Z.max_id.
Qed.

(** X13: what the alignment check of the DMA backend tests.  For a
    requested alignment [2 ^ j] the constructor works with the alignment
    [2 ^ max(j, PAGE_SHIFT)], and a successful call with the DMA backend
    warns exactly when the bus address is not a multiple of it; the object
    is created either way. *)
Theorem dma_alignment_warning (pf : platform) (env : ctor_env) (imem : gk20a_instmem)
    (args : nvkm_instobj_args) (w : world) (j : Z) :
  platform_ok pf -> PAGE_SHIFT pf < 32 ->
  0 <= j < 32 -> args_align args = 2 ^ j ->
  imem_domain imem = 0 ->
  env_create env = KOk ->
  env_dma_cpuaddr env <> 0 ->
  exists o w',
    gk20a_instobj_ctor pf env imem args w = Some ((0, Some o), w') /\
    w_trace w' =
    w_trace w
    ++ EvDmaAlloc (dma_bytes pf args) (env_dma_cpuaddr env) (env_dma_handle env)
       :: (if env_dma_handle env mod 2 ^ Z.max j (PAGE_SHIFT pf) =? 0 then []
           else [EvWarn (MsgNotAligned (env_dma_handle env)
                                       (2 ^ Z.max j (PAGE_SHIFT pf)))]).
Proof.
  intros Hpf HP Hj Halign Hdom Hcreate Hcpu.
  pose proof (ctor_align_power_of_two pf args j Hpf HP Hj Halign) as Ha.
  destruct Hpf as [Hps _].
  eexists _, _. rewrite (ctor_dma_success pf env imem args w Hdom Hcreate Hcpu).
  split; [reflexivity |]. cbn [w_trace app]. do 2 f_equal.
  unfold misaligned. rewrite Ha.
  assert (0 < 2 ^ Z.max j (PAGE_SHIFT pf) <= 2 ^ 31) as Hm.
  { split; [apply Z.pow_pos_nonneg; lia | apply Z.pow_le_mono_r; lia]. }
  rewrite u32_small by lia.
  replace (2 ^ Z.max j (PAGE_SHIFT pf) - 1) with (Z.ones (Z.max j (PAGE_SHIFT pf)))
    by (rewrite Z.ones_equiv; lia).
  rewrite Z.land_ones by lia.
  destruct (_ =? 0); reflexivity.
Qed.

Lemma dma_alignment_warning_witness :
  exists o w',
    gk20a_instobj_ctor tegra_k1 (env_dma_at 0x80000800) imem_dma args_1_page empty_world
      = Some ((0, Some o), w') /\
    w_trace w' =
    w_trace empty_world
    ++ EvDmaAlloc (dma_bytes tegra_k1 args_1_page)
                  (env_dma_cpuaddr (env_dma_at 0x80000800))
                  (env_dma_handle (env_dma_at 0x80000800))
       :: (if env_dma_handle (env_dma_at 0x80000800) mod 2 ^ Z.max 12 (PAGE_SHIFT tegra_k1)
              =? 0
           then []
           else [EvWarn (MsgNotAligned (env_dma_handle (env_dma_at 0x80000800))
                                       (2 ^ Z.max 12 (PAGE_SHIFT tegra_k1)))]).
Proof.
  apply dma_alignment_warning.
  - unfold platform_ok. simpl. lia.
  - simpl. lia.
  - lia.
  - reflexivity.
  - reflexivity.
  - reflexivity.
  - discriminate.
Defined.

(** ** The IOMMU destructor when pages are larger than 4 KiB *)

Lemma dtor_iommu_loop_overrun (imem : gk20a_instmem) (r_offset : Z) (pgs : list Z)
    (n : nat) :
  forall (i : nat) (w : world),
  (i <= length pgs < i + n)%nat ->
  dtor_iommu_loop imem r_offset pgs n i w = None.
Proof.
  induction n as [| n IH]; intros i w Hlen; [lia |].
  cbn [dtor_iommu_loop]. unfold bind, iommu_unmap.
  destruct (pgs !! i) as [p |] eqn:Hp; [| reflexivity].
  unfold __free_page. apply IH.
  apply lookup_lt_Some in Hp. lia.
Qed.

(** X14: with pages larger than 4 KiB the IOMMU destructor runs past the
    [pages] array.  The constructor allocates [size >> PAGE_SHIFT] entries,
    the destructor loops over [mem->size = size >> 12] of them: destroying
    an object the constructor has just created reads [pages] outside the
    array. *)
Theorem iommu_dtor_large_pages (pf : platform) (env : ctor_env) (imem : gk20a_instmem)
    (args : nvkm_instobj_args) (w : world) :
  platform_ok pf -> 12 < PAGE_SHIFT pf <= 32 ->
  ctor_size pf args <> 0 ->
  imem_domain imem <> 0 ->
  all_succeed pf env args ->
  exists o w1,
    gk20a_instobj_ctor pf env imem args w = Some ((0, Some o), w1) /\
    (length (pages_of o) < Z.to_nat (mem_size (_mem (obj_base o))))%nat /\
    gk20a_instobj_dtor pf imem o w1 = None.
Proof.
  intros Hpf Hps Hnz Hdom (Hcreate & Hpages & Hhead & Hmaps).
  pose proof (npages_of_size pf args Hpf (proj2 Hps)) as Hn.
  pose proof (ctor_size_range pf args) as Hr.
  pose proof (PAGE_SIZE_pow2 pf Hpf) as Hpow.
  assert (length (alloc_list env 0 (ctor_npages pf args))
          < Z.to_nat (Z.shiftr (ctor_size pf args) 12))%nat as Hlen.
  { rewrite alloc_list_length, Z.shiftr_div_pow2 by lia.
    assert (PAGE_SIZE pf = 2 ^ 12 * 2 ^ (PAGE_SHIFT pf - 12)) as Hsplit.
    { rewrite Hpow, <- Z.pow_add_r by lia. f_equal. lia. }
    assert (2 ^ 1 <= 2 ^ (PAGE_SHIFT pf - 12)) as H2 by (apply Z.pow_le_mono_r; lia).
    assert (ctor_size pf args / 2 ^ 12
            = Z.of_nat (ctor_npages pf args) * 2 ^ (PAGE_SHIFT pf - 12)) as ->.
    { symmetry. apply Z.div_unique_exact; [lia |]. rewrite <- Hn, Hsplit. lia. }
    assert (0 < Z.of_nat (ctor_npages pf args)) by nia.
    nia. }
  eexists _, _.
  rewrite (ctor_iommu_success pf env imem args w Hdom Hcreate Hpages Hhead Hmaps).
  split; [reflexivity |]. split; [exact Hlen |].
  unfold gk20a_instobj_dtor, bind. apply Z.eqb_neq in Hdom. rewrite Hdom. cbn [negb].
  unfold iommu_object, gk20a_instobj_dtor_iommu, node_mem, bind, pure.
  cbn [iommu_base mem _mem mem_regions mem_size pages].
  unfold mm_node_get. cbn [w_mm]. rewrite lookup_insert_eq.
  unfold mm_node_set_offset. cbn [w_mm]. rewrite lookup_insert_eq.
  rewrite dtor_iommu_loop_overrun; [reflexivity |]. lia.
Qed.

Lemma iommu_dtor_large_pages_witness :
  exists o w1,
    gk20a_instobj_ctor arm64_64k env_ok imem_iommu args_1_page empty_world
      = Some ((0, Some o), w1) /\
    (length (pages_of o) < Z.to_nat (mem_size (_mem (obj_base o))))%nat /\
    gk20a_instobj_dtor arm64_64k imem_iommu o w1 = None.
Proof.
  apply iommu_dtor_large_pages.
  - split; [simpl; lia | right; reflexivity].
  - simpl. lia.
  - vm_compute. discriminate.
  - discriminate.
  - unfold all_succeed. split; [reflexivity |]. split.
    + intros j _. simpl. lia.
    + split; [reflexivity |]. intros j _. reflexivity.
Defined.
